(** * Poltergeist: routing, middleware chains, pooled contexts, events, rooms

    A shallow embedding of the dispatch core of the poltergeist Go package
    ([router.go], the context file, [events.go], [hub.go], [server.go]) and
    the properties its specification states about it.

    Conventions of the embedding.
    - A Go [string] is a byte sequence: Rocq's [string].
    - A Go [map] is a [gmap]; a [map[string]bool] used as a set is a [gset].
    - A Go slice that is only appended to and ranged over is a [list].
    - Mutation is explicit state passing; the mutexes of the source guard
      every access, so each method is one atomic step on the state.
    - User supplied closures (handlers, middlewares, event handlers) are
      functions on the state they can reach; they are assumed to return
      (a Go panic or a handler that never returns is outside the model). *)

From Stdlib Require Import ZArith Ascii String List Bool Lia.
From stdpp Require Import base option list strings gmap fin_maps fin_sets.

Set Warnings "-register-all,-clear-no-such-hyp".

Local Open Scope string_scope.
Local Open Scope list_scope.
Local Open Scope nat_scope.
Local Open Scope stdpp_scope.

(** ** The functions of Go's [strings] package that the router calls *)

Module GoStrings.

(** [strings.TrimLeft(s, string(c))] *)
Fixpoint TrimLeft (s : string) (c : ascii) : string :=
    match s with
    | EmptyString => EmptyString
    | String a s' => if Ascii.eqb a c then TrimLeft s' c else s
    end.

(** [strings.TrimRight(s, string(c))] *)
Fixpoint TrimRight (s : string) (c : ascii) : string :=
    match s with
    | EmptyString => EmptyString
    | String a s' =>
        match TrimRight s' c with
        | EmptyString => if Ascii.eqb a c then EmptyString else String a EmptyString
        | t => String a t
        end
    end.

(** [strings.Trim(s, string(c))]: all leading and trailing [c] removed. *)
Definition Trim (s : string) (c : ascii) : string := TrimRight (TrimLeft s c) c.

(** [strings.Split(s, string(sep))]: the pieces between the occurrences of
      [sep]; a string without [sep] (also the empty one) is one piece. *)
Fixpoint Split (s : string) (sep : ascii) : list string :=
    match s with
    | EmptyString => [EmptyString]
    | String a s' =>
        if Ascii.eqb a sep then EmptyString :: Split s' sep
        else match Split s' sep with
             | piece :: pieces => String a piece :: pieces
             | [] => [String a EmptyString]
             end
    end.

(** [strings.HasPrefix(s, prefix)] *)
Definition HasPrefix (s prefix : string) : bool := String.prefix prefix s.

Fixpoint skip (n : nat) (s : string) : string :=
    match n, s with
    | S n', String _ s' => skip n' s'
    | _, _ => s
    end.

(** [strings.TrimPrefix(s, prefix)]: [s] without the leading [prefix], or
      [s] itself when it does not start with it. *)
Definition TrimPrefix (s prefix : string) : string :=
    if HasPrefix s prefix then skip (String.length prefix) s else s.

(** [strings.Join(parts, sep)] *)
Definition Join (parts : list string) (sep : string) : string :=
    String.concat sep parts.

End GoStrings.

(** ** Path matching ([router.go], "PATH MATCHING") *)

Module Matcher.
Import GoStrings.

(** [splitPath]: [strings.Split(strings.Trim(p, "/"), "/")] *)
Definition splitPath (p : string) : list string := Split (Trim p "/") "/".

(** [checkWildcard]: does the pattern end in a ["*name"] part. *)
Definition checkWildcard (parts : list string) : bool * string :=
    match last parts with
    | None => (false, EmptyString)
    | Some lastPart =>
        if HasPrefix lastPart "*" then (true, TrimPrefix lastPart "*")
        else (false, EmptyString)
    end.

(** [validatePartCounts] *)
Definition validatePartCounts (patternParts pathParts : list string)
      (hasWildcard : bool) : bool :=
    if hasWildcard then bool_decide (length patternParts ≤ length pathParts)%nat
    else bool_decide (length patternParts = length pathParts :> nat).

(** The loop [for i, patternPart := range patternParts] of [matchPath],
      entered at index [i] with the parameters captured so far. [None] is
      the [return false, nil] inside the loop. *)
Fixpoint matchParts (patternParts : list string) (i : nat)
      (pathParts : list string) (params : gmap string string)
      : option (gmap string string) :=
    match patternParts with
    | [] => Some params
    | patternPart :: rest =>
        match pathParts !! i with
        | None => None
        | Some pathPart =>
            if HasPrefix patternPart ":" then
              matchParts rest (S i) pathParts
                (<[TrimPrefix patternPart ":" := pathPart]> params)
            else if bool_decide (patternPart = pathPart) then
              matchParts rest (S i) pathParts params
            else None
        end
    end.

(** [patternParts[:len(patternParts)-1]] when the pattern has a wildcard. *)
Definition stripWildcard (hasWildcard : bool) (patternParts : list string)
      : list string :=
    if hasWildcard then take (length patternParts - 1) patternParts
    else patternParts.

(** [matchPath]. The Go result [(true, params)] is [Some params] and
      [(false, nil)] is [None]. *)
Definition matchPath (pattern requestPath : string)
      : option (gmap string string) :=
    let params : gmap string string := ∅ in
    if bool_decide (pattern = requestPath) then Some params
    else
      let patternParts := splitPath pattern in
      let pathParts := splitPath requestPath in
      let '(hasWildcard, wildcardName) := checkWildcard patternParts in
      let patternParts := stripWildcard hasWildcard patternParts in
      if negb (validatePartCounts patternParts pathParts hasWildcard) then None
      else
        match matchParts patternParts 0 pathParts params with
        | None => None
        | Some params =>
            if hasWildcard then
              let remainingParts := drop (length patternParts) pathParts in
              Some (<[wildcardName := Join remainingParts "/"]> params)
            else Some params
        end.

End Matcher.


(** ** The room table shared by the connection hubs ([hub.go]) *)

Module Hub.

(** [BaseHub]. The field [rooms] is a [map[string]map[string]bool] whose
    inner maps only ever receive the value [true]: the source calls them
    "set of client IDs", and they are sets here. The mutex [mu] is held
    for the whole of every method below. *)
Record BaseHub := mkBaseHub {
  rooms : gmap string (gset string);
  running : bool
}.

(** [newBaseHub] *)
Definition newBaseHub : BaseHub := mkBaseHub ∅ false.

(** [addToRoom]: the room's set is made when missing, then the client is
    put in it. *)
Definition addToRoom (clientID room : string) (h : BaseHub) : BaseHub :=
  let rooms1 :=
    match rooms h !! room with
    | None => <[room := (∅ : gset string)]> (rooms h)
    | Some _ => rooms h
    end in
  match rooms1 !! room with
  | Some clients => mkBaseHub (<[room := {[clientID]} ∪ clients]> rooms1) (running h)
  | None => mkBaseHub rooms1 (running h)
  end.

(** [removeFromRoom]: the client is deleted from the room's set, and the
    room is dropped when that leaves it empty. *)
Definition removeFromRoom (clientID room : string) (h : BaseHub) : BaseHub :=
  match rooms h !! room with
  | Some clients =>
      let clients := clients ∖ {[clientID]} in
      if decide (size clients = 0)
      then mkBaseHub (delete room (rooms h)) (running h)
      else mkBaseHub (<[room := clients]> (rooms h)) (running h)
  | None => h
  end.

(** [removeFromAllRooms]: the loop over all rooms, each visited once. *)
Definition removeFromAllRooms (clientID : string) (h : BaseHub) : BaseHub :=
  mkBaseHub
    (omap (λ clients : gset string,
             let clients := clients ∖ {[clientID]} in
             if decide (size clients = 0) then None else Some clients)
          (rooms h))
    (running h).

(** [getRoomClientIDs]: the ids of a room, in the (unspecified) order of a
    map iteration; no ids for an unknown room. The list here has one
    fixed order; what the code promises of it is its elements, so two
    results are compared as sets or up to a permutation only. *)
Definition getRoomClientIDs (room : string) (h : BaseHub) : list string :=
  match rooms h !! room with
  | None => []
  | Some clients => elements clients
  end.

(** [roomCount] *)
Definition roomCount (room : string) (h : BaseHub) : nat :=
  match rooms h !! room with
  | Some clients => size clients
  | None => 0
  end.

End Hub.

(** ** The event pipeline ([events.go]) *)

Module Events.

(** [type EventType string] and the standard event kinds. *)
Definition EventType := string.
Definition EventBeforeRequest : EventType := "before_request".
Definition EventAfterRequest : EventType := "after_request".
Definition EventError : EventType := "on_error".
Definition EventServerStart : EventType := "server_start".
Definition EventServerStop : EventType := "server_stop".
Definition EventWSConnect : EventType := "ws_connect".
Definition EventWSDisconnect : EventType := "ws_disconnect".
Definition EventWSMessage : EventType := "ws_message".
Definition EventSSEConnect : EventType := "sse_connect".
Definition EventSSEDisconnect : EventType := "sse_disconnect".

(** An [EventHandler] value is a reference to a closure, named here by a
    number. [Handler f] is a [func(ctx *Context)] supplied by the user;
    [NoArgHandler f] is the closure [func(ctx *Context) { handler() }] that
    [OnServerStart] and [OnServerStop] build around the user's [func()]
    number [f]. *)
Inductive EventHandler :=
| Handler (f : nat)
| NoArgHandler (f : nat).

(** [EventPipeline]: per kind, the handlers in registration order. A kind
    that is no key reads as the nil slice. *)
Record EventPipeline := mkEventPipeline {
  handlers : gmap EventType (list EventHandler)
}.

(** [NewEventPipeline] *)
Definition NewEventPipeline : EventPipeline := mkEventPipeline ∅.

(** [On]: [p.handlers[event] = append(p.handlers[event], handler)] *)
Definition On (event : EventType) (handler : EventHandler) (p : EventPipeline)
    : EventPipeline :=
  mkEventPipeline (<[event := (handlers p !!! event) ++ [handler]]> (handlers p)).

(** [Off]: [delete(p.handlers, event)] *)
Definition Off (event : EventType) (p : EventPipeline) : EventPipeline :=
  mkEventPipeline (delete event (handlers p)).

(** [HasHandlers] *)
Definition HasHandlers (event : EventType) (p : EventPipeline) : bool :=
  bool_decide (0 < length (handlers p !!! event)).

(** [Clear] *)
Definition Clear (p : EventPipeline) : EventPipeline := mkEventPipeline ∅.

(** [BeforeRequest], [AfterRequest], [OnError] *)
Definition BeforeRequest (handler : EventHandler) := On EventBeforeRequest handler.
Definition AfterRequest (handler : EventHandler) := On EventAfterRequest handler.
Definition OnError (handler : EventHandler) := On EventError handler.

(** [OnServerStart], [OnServerStop]: the user's [func()] is wrapped. *)
Definition OnServerStart (handler : nat) := On EventServerStart (NoArgHandler handler).
Definition OnServerStop (handler : nat) := On EventServerStop (NoArgHandler handler).

(** What a running handler can reach: the pipeline it is registered in
    (closures capture it, so a handler may call [On], [Off] or [Clear])
    and the rest of the program state [St]. *)
Definition World (St : Type) : Type := (EventPipeline * St)%type.

(** The code of the closures: what the call of closure [f] does. A user
    handler receives the non-nil context pointer it was emitted with. *)
Record Code (St Ptr : Type) := mkCode {
  handlerCode : nat → Ptr → World St → World St;
  thunkCode : nat → World St → World St
}.
Arguments mkCode {St Ptr} _ _.
Arguments handlerCode {St Ptr} _ _ _ _.
Arguments thunkCode {St Ptr} _ _ _.

Section Emission.
Context {St Ptr : Type}.
Variable code : Code St Ptr.

(** The call [handler(ctx)]. *)
Definition call (handler : EventHandler) (ctx : Ptr) (w : World St) : World St :=
  match handler with
  | Handler f => handlerCode code f ctx w
  | NoArgHandler f => thunkCode code f w
  end.

(** The loop of [Emit] over the slice read under the lock:
    [for _, handler := range handlers { if ctx != nil { handler(ctx) } }].
    The context pointer is [None] for [nil]. Beside the world after the
    loop, the handlers called are returned, in the order of the calls. *)
Fixpoint emitLoop (hs : list EventHandler) (ctx : option Ptr) (w : World St)
    : World St * list EventHandler :=
  match hs with
  | [] => (w, [])
  | handler :: rest =>
      match ctx with
      | Some c =>
          let '(w', called) := emitLoop rest ctx (call handler c w) in
          (w', handler :: called)
      | None => emitLoop rest ctx w
      end
  end.

(** [Emit]: [handlers := p.handlers[event]] is read once, then the loop
    runs on that slice value. [On] appends behind its length and [Off]
    removes the map entry, so neither changes the slice value held here. *)
Definition Emit (event : EventType) (ctx : option Ptr) (w : World St)
    : World St * list EventHandler :=
  let handlers := handlers (fst w) !!! event in
  emitLoop handlers ctx w.

(** The loop of [EmitAsync]: [go handler(ctx)] starts a goroutine and does
    not wait for it; the goroutines started are returned, in start order. *)
Fixpoint asyncLoop (hs : list EventHandler) (ctx : option Ptr)
    : list (EventHandler * Ptr) :=
  match hs with
  | [] => []
  | handler :: rest =>
      match ctx with
      | Some c => (handler, c) :: asyncLoop rest ctx
      | None => asyncLoop rest ctx
      end
  end.

(** [EmitAsync] *)
Definition EmitAsync (event : EventType) (ctx : option Ptr) (w : World St)
    : list (EventHandler * Ptr) :=
  let handlers := handlers (fst w) !!! event in
  asyncLoop handlers ctx.

End Emission.

End Events.

(** ** The request context (the context file of the package) *)

Module Ctx.

(** A Go [error], by its message. *)
Definition error := string.

(** Values of type [any] met in the store and in response bodies; [AH] is
    a [poltergeist.H] literal. *)
Inductive any :=
| AString (s : string)
| AInt (n : Z)
| AError (e : error)
| AH (fields : list (string * any))
| AOther (tag : nat).

(** Header texts. The constants [HeaderContentType] and [ContentTypeJSON]
    are declared in a file of the package that is not among the sources;
    they are kept symbolic. *)
Inductive HeaderText :=
| HeaderContentType
| ContentTypeJSON
| Text (s : string).

(** [net/http] status codes used by the dispatcher. *)
Definition StatusOK : Z := 200.
Definition StatusNotFound : Z := 404.
Definition StatusMethodNotAllowed : Z := 405.
Definition StatusInternalServerError : Z := 500.

(** The [http.ResponseWriter] of a request, owned by the listener. It is
    modelled by the calls it has received, oldest first, and by the error
    its [Write] returns ([None] for a healthy connection). *)
Inductive WriterCall :=
| HeaderSet (key value : HeaderText)
| WriteHeader (code : Z)
| EncodeJSON (v : any).

Record ResponseWriter := mkResponseWriter {
  received : list WriterCall;
  writeErr : option error
}.

(** The part of [*http.Request] the dispatcher reads. *)
Record HttpRequest := mkHttpRequest {
  Request_Method : string;
  URL_Path : string
}.

(** [Context]. [None] is a nil pointer or interface; a nil map reads as the
    empty map, and the only context with nil maps is the zero value the
    pool makes, which [reset] replaces before any write. [pipeline] tells
    whether the pointer to the router's pipeline is set. *)
Record Context := mkContext {
  Writer : option ResponseWriter;
  Request : option HttpRequest;
  Params : gmap string string;
  statusCode : Z;
  written : bool;
  keys : gmap string any;
  WS : option nat;
  SSE : option nat;
  pipeline : bool
}.

(** [&Context{}] *)
Definition zeroContext : Context :=
  mkContext None None ∅ 0 false ∅ None None false.

(** [NewContext] *)
Definition NewContext (w : ResponseWriter) (r : HttpRequest) : Context :=
  mkContext (Some w) (Some r) ∅ StatusOK false ∅ None None false.

(** [reset]: every field but the mutex and [pipeline] is assigned. *)
Definition reset (c : Context) (w : ResponseWriter) (r : HttpRequest) : Context :=
  mkContext (Some w) (Some r) ∅ StatusOK false ∅ None None (pipeline c).

Definition set_Writer (w : option ResponseWriter) (c : Context) : Context :=
  mkContext w (Request c) (Params c) (statusCode c) (written c) (keys c)
            (WS c) (SSE c) (pipeline c).
Definition set_Params (ps : gmap string string) (c : Context) : Context :=
  mkContext (Writer c) (Request c) ps (statusCode c) (written c) (keys c)
            (WS c) (SSE c) (pipeline c).
Definition set_written (b : bool) (c : Context) : Context :=
  mkContext (Writer c) (Request c) (Params c) (statusCode c) b (keys c)
            (WS c) (SSE c) (pipeline c).
Definition set_keys (ks : gmap string any) (c : Context) : Context :=
  mkContext (Writer c) (Request c) (Params c) (statusCode c) (written c) ks
            (WS c) (SSE c) (pipeline c).
Definition set_pipeline (p : bool) (c : Context) : Context :=
  mkContext (Writer c) (Request c) (Params c) (statusCode c) (written c) (keys c)
            (WS c) (SSE c) p.

(** [Set]: [c.keys[key] = value]. On the zero context, whose [keys] is a
    nil map, the assignment panics; the function is meant for contexts
    made by [NewContext] or [reset], which is every context a handler is
    given. *)
Definition Set_ (key : string) (value : any) (c : Context) : Context :=
  set_keys (<[key := value]> (keys c)) c.

(** [Get]: [(value, true)] is [Some value], [(nil, false)] is [None]. *)
Definition Get (key : string) (c : Context) : option any := keys c !! key.

(** [Param]: [c.Params[key]], the empty string for a missing key. *)
Definition Param (key : string) (c : Context) : string :=
  default EmptyString (Params c !! key).

(** [Written] *)
Definition Written (c : Context) : bool := written c.

(** A call on [c.Writer]. With a nil [Writer] Go panics; no request served
    by [ServeHTTP] starts with one, and the model leaves the context as
    it is. *)
Definition tell (call : WriterCall) (c : Context) : Context :=
  match Writer c with
  | Some w => set_Writer (Some (mkResponseWriter (received w ++ [call]) (writeErr w))) c
  | None => c
  end.

(** [SetHeader] *)
Definition SetHeader (key value : HeaderText) (c : Context) : Context :=
  tell (HeaderSet key value) c.

(** [JSON]: header, status line, [written], then the encoded body; the
    result is the error of the encoder's write. Every value of [any]
    above has a JSON encoding; a value that [encoding/json] refuses (a
    channel, a function) and the error it gives are not modelled. *)
Definition JSON (code : Z) (v : any) (c : Context) : Context * option error :=
  let c := SetHeader HeaderContentType ContentTypeJSON c in
  let c := tell (WriteHeader code) c in
  let c := set_written true c in
  let c := tell (EncodeJSON v) c in
  (c, Writer c ≫= writeErr).

(** [Error]: [c.JSON(code, H{"error": message})] *)
Definition Error (code : Z) (message : string) (c : Context) : Context * option error :=
  JSON code (AH [("error", AString message)]) c.

(** [NotFound], [InternalServerError] *)
Definition NotFound (message : string) := Error StatusNotFound message.
Definition InternalServerError (message : string) := Error StatusInternalServerError message.

(** The status line a writer has been sent: its first [WriteHeader]. *)
Fixpoint firstStatus (calls : list WriterCall) : option Z :=
  match calls with
  | [] => None
  | WriteHeader code :: _ => Some code
  | _ :: rest => firstStatus rest
  end.

End Ctx.

(** ** The router ([router.go]) *)

Module Router.
Import Ctx Events.

(** The one context being served is reached through its pointer, which
    carries no information of its own once it is known not to be nil. *)
Definition CtxPtr : Type := unit.

(** [http.MethodGet], ... *)
Definition MethodGet : string := "GET".
Definition MethodPost : string := "POST".
Definition MethodPut : string := "PUT".
Definition MethodDelete : string := "DELETE".

Section Dispatch.

(** The state of the program beside the pipeline and the context. *)
Context {G : Type}.

(** The state a handler runs on: the pipeline, the context its argument
    points to, and the rest. *)
Definition MState : Type := World (Context * G).

(** [HandlerFunc]: [func(c *Context) error], [None] being the nil error.
    A handler is a function of the state: it has returned, with all its
    effects, when the call returns. A goroutine that a handler or a
    middleware leaves running is not part of it; [Detached] below has
    the one of [middleware.Timeout]. *)
Definition HandlerFunc : Type := MState → MState * option error.

(** [MiddlewareFunc]: [func(HandlerFunc) HandlerFunc] *)
Definition MiddlewareFunc : Type := HandlerFunc → HandlerFunc.

(** [Route]; the fields after [Middlewares] are the metadata for the
    documentation generator, which dispatch never reads. *)
Record Route := mkRoute {
  Method : string;
  Path : string;
  Handler : HandlerFunc;
  Middlewares : list MiddlewareFunc;
  RouteName : string;
  RouteDescription : string;
  RouteTags : list string;
  RequestBody : option any;
  ResponseBody : option any
}.

(** [Router], without the pool, which changes with every request and is
    kept in the serving state below, and without the list of groups, which
    dispatch never reads. [pipeline_set] is [r.pipeline != nil]. *)
Record Router := mkRouter {
  routes : list Route;
  middlewares : list MiddlewareFunc;
  notFound : option HandlerFunc;
  methodNotAllowed : option HandlerFunc;
  pipeline_set : bool
}.

(** [NewRouter] *)
Definition NewRouter : Router := mkRouter [] [] None None true.

(** [Use] *)
Definition Use (mws : list MiddlewareFunc) (r : Router) : Router :=
  mkRouter (routes r) (middlewares r ++ mws) (notFound r) (methodNotAllowed r)
           (pipeline_set r).

(** [NotFound], [MethodNotAllowed]: the custom handlers. *)
Definition NotFound (handler : HandlerFunc) (r : Router) : Router :=
  mkRouter (routes r) (middlewares r) (Some handler) (methodNotAllowed r)
           (pipeline_set r).
Definition MethodNotAllowed (handler : HandlerFunc) (r : Router) : Router :=
  mkRouter (routes r) (middlewares r) (notFound r) (Some handler)
           (pipeline_set r).

(** [addRoute]: the new route goes to the end of [r.routes]. *)
Definition addRoute (method routePath : string) (handler : HandlerFunc)
    (mws : list MiddlewareFunc) (r : Router) : Router :=
  let route := mkRoute method routePath handler mws EmptyString EmptyString [] None None in
  mkRouter (routes r ++ [route]) (middlewares r) (notFound r) (methodNotAllowed r)
           (pipeline_set r).

(** [GET], [POST], [PUT], [DELETE] *)
Definition GET := addRoute MethodGet.
Definition POST := addRoute MethodPost.
Definition PUT := addRoute MethodPut.
Definition DELETE := addRoute MethodDelete.

(** The loop of [findRoute] over the routes not yet visited. *)
Fixpoint findRouteIn (rs : list Route) (method path : string)
    : option (Route * gmap string string) :=
  match rs with
  | [] => None
  | route :: rest =>
      if negb (bool_decide (Method route = method)) then findRouteIn rest method path
      else
        match Matcher.matchPath (Path route) path with
        | Some params => Some (route, params)
        | None => findRouteIn rest method path
        end
  end.

(** [findRoute]: [None] is the result [(nil, nil)]. *)
Definition findRoute (r : Router) (method path : string)
    : option (Route * gmap string string) :=
  findRouteIn (routes r) method path.

(** A method of the context, run on the context of the state. *)
Definition onContext {A : Type} (f : Context → Context * A) (m : MState)
    : MState * A :=
  let '(c, a) := f (fst (snd m)) in ((fst m, (c, snd (snd m))), a).

(** The loop of [handleNoMatch] over the routes not yet visited, and what
    follows it. *)
Fixpoint handleNoMatchIn (rs : list Route) (r : Router) (reqPath : string)
    : HandlerFunc :=
  match rs with
  | [] =>
      match notFound r with
      | Some handler => handler
      | None => onContext (Error StatusNotFound "Not Found")
      end
  | route :: rest =>
      match Matcher.matchPath (Path route) reqPath with
      | Some _ =>
          match methodNotAllowed r with
          | Some handler => handler
          | None => onContext (Error StatusMethodNotAllowed "Method Not Allowed")
          end
      | None => handleNoMatchIn rest r reqPath
      end
  end.

(** [handleNoMatch] *)
Definition handleNoMatch (r : Router) (reqPath : string) : HandlerFunc :=
  handleNoMatchIn (routes r) r reqPath.

(** The loop [for i := n - 1; i >= 0; i-- { handler = mws[i](handler) }],
    with [n] middlewares still to apply. *)
Fixpoint wrapDown (mws : list MiddlewareFunc) (n : nat) (handler : HandlerFunc)
    : HandlerFunc :=
  match n with
  | 0 => handler
  | S i =>
      match mws !! i with
      | Some mw => wrapDown mws i (mw handler)
      | None => wrapDown mws i handler
      end
  end.

(** [buildMiddlewareChain] *)
Definition buildMiddlewareChain (r : Router) (route : Route) : HandlerFunc :=
  let handler := Handler route in
  let handler := wrapDown (Middlewares route) (length (Middlewares route)) handler in
  let handler := wrapDown (middlewares r) (length (middlewares r)) handler in
  handler.

(** [handleRequest] *)
Definition handleRequest (r : Router) (req : HttpRequest) : HandlerFunc :=
  λ m,
    let reqPath := URL_Path req in
    match findRoute r (Request_Method req) reqPath with
    | None => handleNoMatch r reqPath m
    | Some (route, params) =>
        let m := fst (onContext (λ c, (set_Params params c, tt)) m) in
        buildMiddlewareChain r route m
    end.

(** The code of the event handlers registered in the router's pipeline. *)
Variable code : Code (Context * G) CtxPtr.

(** [emitEvent]: [r.pipeline.Emit(event, c)] when the router has a
    pipeline; [c] is the context being served, never nil. *)
Definition emitEvent (r : Router) (event : EventType) (m : MState) : MState :=
  if pipeline_set r then fst (Emit code event (Some tt) m) else m.

(** [handleError]; the message of an [error] stands for the error. *)
Definition handleError (r : Router) (err : error) (m : MState) : MState :=
  let m := fst (onContext (λ c, (Set_ "error" (AError err) c, tt)) m) in
  let m := emitEvent r EventError m in
  if negb (Written (fst (snd m)))
  then fst (onContext (InternalServerError err) m)
  else m.

(** The state between requests: the free contexts of [r.pool] (a
    [sync.Pool] whose [New] makes [&Context{}]), the pipeline and the
    rest. [Get] takes a free context when there is one. *)
Record Serving := mkServing {
  pool : list Context;
  pipe : EventPipeline;
  rest : G
}.

(** [r.pool.Get] and [r.pool.Put]. A [sync.Pool] may drop an item at any
    time and may give any item it holds; the list gives the item put
    last and drops none, which is one of its behaviours. Nothing is
    stated of how many contexts the pool holds. *)
Definition poolGet (free : list Context) : Context * list Context :=
  match free with
  | c :: free' => (c, free')
  | [] => (zeroContext, [])
  end.

Definition poolPut (c : Context) (free : list Context) : list Context := c :: free.

(** The first three statements of [ServeHTTP]: the context a request is
    served with. *)
Definition acquire (r : Router) (w : ResponseWriter) (req : HttpRequest)
    (free : list Context) : Context * list Context :=
  let '(c, free') := poolGet free in
  let c := reset c w req in
  let c := set_pipeline (pipeline_set r) c in
  (c, free').

(** [ServeHTTP]; the deferred [r.pool.Put(c)] runs last. *)
Definition ServeHTTP (r : Router) (w : ResponseWriter) (req : HttpRequest)
    (s : Serving) : Serving :=
  let '(c, free) := acquire r w req (pool s) in
  let m : MState := (pipe s, (c, rest s)) in
  let m := emitEvent r EventBeforeRequest m in
  let '(m, err) := handleRequest r req m in
  let m := match err with
           | Some err => handleError r err m
           | None => m
           end in
  let m := emitEvent r EventAfterRequest m in
  mkServing (poolPut (fst (snd m)) free) (fst m) (snd (snd m)).

End Dispatch.

Arguments Route : clear implicits.
Arguments Router : clear implicits.
Arguments Serving : clear implicits.
Arguments MState : clear implicits.
Arguments HandlerFunc : clear implicits.
Arguments MiddlewareFunc : clear implicits.

End Router.

(** ** The server's use of the pipeline ([server.go]) *)

Module Server.
Import Events.

Section Lifecycle.
Context {St Ptr : Type}.
Variable code : Code St Ptr.

(** [Server.Run], up to the call that starts listening: the banner is
    printed and [s.router.pipeline.Emit(EventServerStart, nil)] runs. *)
Definition Run (w : World St) : World St * list EventHandler :=
  Emit code EventServerStart None w.

(** [Server.Shutdown], up to [s.httpServer.Shutdown(ctx)]; [started] is
    [s.httpServer != nil]. *)
Definition Shutdown (started : bool) (w : World St) : World St * list EventHandler :=
  if started then Emit code EventServerStop None w else (w, []).

(** The end of [runWithGracefulShutdown], after the signal arrived:
    [s.router.pipeline.Emit(EventServerStop, nil)]. *)
Definition runWithGracefulShutdown_stop (w : World St) : World St * list EventHandler :=
  Emit code EventServerStop None w.

End Lifecycle.

End Server.

(** ** More of the context: typed reads of the store, 204 *)

Module CtxMore.
Import Ctx.

(** [StatusNoContent] *)
Definition StatusNoContent : Z := 204.





(** [Status]: only the field is assigned. *)
Definition Status (code : Z) (c : Context) : Context :=
  mkContext (Writer c) (Request c) (Params c) code (written c) (keys c)
            (WS c) (SSE c) (pipeline c).

(** [NoContent] *)
Definition NoContent (c : Context) : Context * option error :=
  let c := tell (WriteHeader StatusNoContent) c in
  let c := set_written true c in
  (c, None).

(** [Method]: [c.Request.Method]. With a nil [Request] Go panics; the
    model reads the empty method. *)
Definition Method_ (c : Context) : string :=
  match Request c with
  | Some req => Request_Method req
  | None => EmptyString
  end.

End CtxMore.

(** ** More of the router: [Any] and route groups *)

Module RouterMore.
Import Ctx Events Router.

Section Groups.
Context {G : Type}.

(** [Router.Any]. The list [AllHTTPMethods] is declared in a file of the
    package that is not among the sources: it is the first argument. *)
Definition Any (AllHTTPMethods : list string) (path : string)
    (handler : HandlerFunc G) (mws : list (MiddlewareFunc G)) (r : Router G)
    : Router G :=
  fold_left (λ r method, addRoute method path handler mws r) AllHTTPMethods r.

(** [RouteGroup], without the pointers to its router and to its parent:
    the router is the one the group's routes are added to, and the parent
    is never read. *)
Record RouteGroup := mkRouteGroup {
  prefix : string;
  group_middlewares : list (MiddlewareFunc G)
}.

(** [Router.Group] *)
Definition Group (prefix : string) (mws : list (MiddlewareFunc G)) : RouteGroup :=
  mkRouteGroup prefix mws.

(** [RouteGroup.Use]: [g.middlewares = append(g.middlewares, ...)]; the
    list is a value, the sharing of a backing array between a group and
    the groups made from it is not modelled. *)
Definition Group_Use (mws : list (MiddlewareFunc G)) (g : RouteGroup) : RouteGroup :=
  mkRouteGroup (prefix g) (group_middlewares g ++ mws).

(** [RouteGroup.Group]: the nested group gets copies of the parent's
    prefix and middlewares, extended by its own. *)
Definition Group_Group (prefix' : string) (mws : list (MiddlewareFunc G))
    (g : RouteGroup) : RouteGroup :=
  mkRouteGroup (prefix g ++ prefix')%string (group_middlewares g ++ mws).

(** [RouteGroup.addRoute] *)
Definition Group_addRoute (g : RouteGroup) (method routePath : string)
    (handler : HandlerFunc G) (mws : list (MiddlewareFunc G)) (r : Router G)
    : Router G :=
  let fullPath := (prefix g ++ routePath)%string in
  let allMiddlewares := group_middlewares g ++ mws in
  addRoute method fullPath handler allMiddlewares r.

End Groups.

Arguments RouteGroup : clear implicits.

End RouterMore.

(** ** The package [events] ([events/pipeline.go]) *)

Module EventsPkg.

(** [Pipeline]: per kind, the handlers (closures, by number) in
    registration order. *)
Record Pipeline := mkPipeline {
  handlers : gmap string (list nat)
}.

(** [NewPipeline], [On], [Off], [HasHandlers], [Clear] *)
Definition NewPipeline : Pipeline := mkPipeline ∅.

Definition On (event : string) (handler : nat) (p : Pipeline) : Pipeline :=
  mkPipeline (<[event := (handlers p !!! event) ++ [handler]]> (handlers p)).

Definition Off (event : string) (p : Pipeline) : Pipeline :=
  mkPipeline (delete event (handlers p)).

Definition HasHandlers (event : string) (p : Pipeline) : bool :=
  bool_decide (0 < length (handlers p !!! event)).

Definition Clear (p : Pipeline) : Pipeline := mkPipeline ∅.

Section Emission.
Context {St Data : Type}.

(** The code of the closures, on the pipeline and the rest of the state;
    [data] is the [any] argument, whatever it is. *)
Variable code : nat → Data → Pipeline * St → Pipeline * St.

(** The loop of [Emit]: [for _, handler := range handlers { handler(data) }];
    the handlers called are returned beside the state. *)
Fixpoint emitLoop (hs : list nat) (data : Data) (w : Pipeline * St)
    : (Pipeline * St) * list nat :=
  match hs with
  | [] => (w, [])
  | handler :: rest =>
      let '(w', called) := emitLoop rest data (code handler data w) in
      (w', handler :: called)
  end.

(** [Emit] *)
Definition Emit (event : string) (data : Data) (w : Pipeline * St)
    : (Pipeline * St) * list nat :=
  let handlers := handlers (fst w) !!! event in
  emitLoop handlers data w.

End Emission.

End EventsPkg.

(** ** The package [middleware] *)

Module Middleware.
Import Ctx CtxMore Events Router.

(** [http.MethodOptions], [http.StatusUnauthorized],
    [http.StatusGatewayTimeout] *)
Definition MethodOptions : string := "OPTIONS".
Definition StatusUnauthorized : Z := 401.
Definition StatusGatewayTimeout : Z := 504.

Section Middlewares.
Context {G : Type}.

(** [Chain]: the loop is the one of [buildMiddlewareChain]. *)
Definition Chain (mws : list (MiddlewareFunc G)) : MiddlewareFunc G :=
  λ next, wrapDown mws (length mws) next.

(** [If] *)
Definition If (condition : Context → bool) (middleware : MiddlewareFunc G)
    : MiddlewareFunc G :=
  λ next m,
    if condition (fst (snd m)) then middleware next m else next m.

(** The case the [select] statement of [Timeout] takes: the result of the
    goroutine was there first, or the timer was. *)
Inductive Selected :=
| DoneFirst
| TimerFirst.

(** [Timeout]. The middleware starts a goroutine that runs [next(c)] and
    sends its result to a buffered channel, and waits for the result or
    for the timer. When the result comes first, [next] has run on the
    context and its error is returned. When the timer comes first the
    answer is 504 and the middleware returns; nothing stops or awaits the
    goroutine, which still holds [c] ([detached] below). The timer case
    is modelled for the schedule in which the goroutine has not taken a
    step by then. The body [map[string]string{"error": ...}] has the
    encoding of the [H] literal. *)
Definition Timeout (timeout : Z) (selected : Selected) : MiddlewareFunc G :=
  λ next m,
    match selected with
    | DoneFirst => next m
    | TimerFirst =>
        onContext (JSON StatusGatewayTimeout (AH [("error", AString "Request Timeout")])) m
    end.

(** What [Timeout] leaves running when it returns: in the timer case the
    call [next(c)] of its goroutine, whose result nobody receives. *)
Definition detached (selected : Selected) (next : HandlerFunc G) : option (HandlerFunc G) :=
  match selected with
  | DoneFirst => None
  | TimerFirst => Some next
  end.

(** [c.Header(key)]: the value of a request header. The headers of the
    request are kept by [net/http] and are no part of the request record
    above; the lookup is a function of the context. *)
Variable Header : Context → string → string.

(** [CORSConfig] *)
Record CORSConfig := mkCORSConfig {
  AllowOrigins : list string;
  AllowMethods : list string;
  AllowHeaders : list string;
  ExposeHeaders : list string;
  AllowCredentials : bool;
  MaxAge : Z
}.

(** [DefaultCORSConfig] *)
Definition DefaultCORSConfig : CORSConfig :=
  mkCORSConfig ["*"] ["GET"; "POST"; "PUT"; "PATCH"; "DELETE"; "OPTIONS"; "HEAD"]
    ["Origin"; "Content-Type"; "Accept"; "Authorization"; "X-Requested-With"]
    [] false 86400.

(** [strconv.Itoa] *)
Variable Itoa : Z → string.

(** The loop of [CORSWithConfig] that looks for the origin. *)
Fixpoint originAllowed (origins : list string) (origin : string) : bool :=
  match origins with
  | [] => false
  | o :: rest =>
      if bool_decide (o = "*") || bool_decide (o = origin) then true
      else originAllowed rest origin
  end.

(** A statement on the context that returns nothing. *)
Definition doCtx (f : Context → Context) (m : MState G) : MState G :=
  fst (onContext (λ c, (f c, tt)) m).

(** [CORSWithConfig]; a nil [config] is [None]. *)
Definition CORSWithConfig (config : option CORSConfig) : MiddlewareFunc G :=
  let config := default DefaultCORSConfig config in
  let allowMethods := GoStrings.Join (AllowMethods config) ", " in
  let allowHeaders := GoStrings.Join (AllowHeaders config) ", " in
  let exposeHeaders := GoStrings.Join (ExposeHeaders config) ", " in
  let maxAge := Itoa (MaxAge config) in
  λ next m,
    let origin := Header (fst (snd m)) "Origin" in
    let allowed := originAllowed (AllowOrigins config) origin in
    if allowed then
      let m :=
        if bool_decide (AllowOrigins config = ["*"])
        then doCtx (SetHeader (Text "Access-Control-Allow-Origin") (Text "*")) m
        else
          let m := doCtx (SetHeader (Text "Access-Control-Allow-Origin") (Text origin)) m in
          doCtx (SetHeader (Text "Vary") (Text "Origin")) m in
      let m :=
        if AllowCredentials config
        then doCtx (SetHeader (Text "Access-Control-Allow-Credentials") (Text "true")) m
        else m in
      let m :=
        if bool_decide (0 < length (ExposeHeaders config))
        then doCtx (SetHeader (Text "Access-Control-Expose-Headers") (Text exposeHeaders)) m
        else m in
      if bool_decide (Method_ (fst (snd m)) = MethodOptions) then
        let m := doCtx (SetHeader (Text "Access-Control-Allow-Methods") (Text allowMethods)) m in
        let m := doCtx (SetHeader (Text "Access-Control-Allow-Headers") (Text allowHeaders)) m in
        let m := doCtx (SetHeader (Text "Access-Control-Max-Age") (Text maxAge)) m in
        onContext NoContent m
      else next m
    else next m.

(** [CORS] *)
Definition CORS : MiddlewareFunc G := CORSWithConfig (Some DefaultCORSConfig).

(** [BearerAuthConfig]. The validator and the skip function read the
    context; a nil [SkipFunc] is [None]. *)
Record BearerAuthConfig := mkBearerAuthConfig {
  Validator : string → Context → bool;
  SkipFunc : option (Context → bool);
  ErrorMessage : string
}.

(** The answer of [BearerAuthWithConfig] to a request it rejects. *)
Definition rejectBearer (config : BearerAuthConfig) : HandlerFunc G :=
  onContext (JSON StatusUnauthorized (AH [("error", AString (ErrorMessage config))])).

(** [BearerAuthWithConfig]; [auth[7:]] is the header without its first
    seven bytes. *)
Definition BearerAuthWithConfig (config : BearerAuthConfig) : MiddlewareFunc G :=
  λ next m,
    let c := fst (snd m) in
    if match SkipFunc config with
       | Some skip => skip c
       | None => false
       end
    then next m
    else
      let auth := Header c "Authorization" in
      if bool_decide (auth = EmptyString) then rejectBearer config m
      else if negb (GoStrings.HasPrefix auth "Bearer ") then rejectBearer config m
      else
        let token := GoStrings.skip 7 auth in
        if negb (Validator config token c) then rejectBearer config m
        else
          let m := doCtx (Set_ "token" (AString token)) m in
          next m.

(** [BearerAuth] *)
Definition BearerAuth (validator : string → Context → bool) : MiddlewareFunc G :=
  BearerAuthWithConfig (mkBearerAuthConfig validator None "Invalid or missing token").

End Middlewares.

End Middleware.

(** ** The pooled contexts as objects *)

(** [ServeHTTP] once more, with the addresses of the contexts: [r.pool]
    holds pointers, [c.reset] assigns the fields of the object it is
    called on, and a goroutine left by [middleware.Timeout] holds the
    pointer it was started with. *)
Module Detached.
Import Ctx Events Router.

Section Objects.
Context {G : Type}.
Variable code : Code (Context * G) CtxPtr.

(** The state between requests: every context made so far, by address,
    the addresses that are in [r.pool], the pipeline and the rest. *)
Record Shared := mkShared {
  objects : list Context;
  freed : list nat;
  pipeOf : EventPipeline;
  restOf : G
}.

(** A goroutine that has not run yet: the pointer [c] it holds and the
    handler it calls on it. *)
Record Goroutine := mkGoroutine {
  holds : nat;
  calls : HandlerFunc G
}.

(** [r.pool.Get().( *Context)]: the address the pool gives, or the address
    of the new [&Context{}] that [New] makes. A [sync.Pool] is free to
    give any of its items or none; it may give the one put last, which
    is what it does here. *)
Definition poolGetAt (objs : list Context) (free : list nat)
    : nat * list Context * list nat :=
  match free with
  | a :: free' => (a, objs, free')
  | [] => (length objs, objs ++ [zeroContext], [])
  end.

(** The context at an address. *)
Definition at_ (objs : list Context) (a : nat) : Context :=
  default zeroContext (objs !! a).

(** The statements of [ServeHTTP] between [c.reset] and the deferred
    [r.pool.Put(c)]. *)
Definition dispatch (r : Router G) (req : HttpRequest) (m : MState G) : MState G :=
  let m := emitEvent code r EventBeforeRequest m in
  let '(m, err) := handleRequest r req m in
  let m := match err with
           | Some err => handleError code r err m
           | None => m
           end in
  emitEvent code r EventAfterRequest m.

(** A goroutine runs while the context at [a] is being served: the call
    is on the object the goroutine holds, which is the context of the
    request when the addresses are the same, and another object of the
    heap otherwise. *)
Definition scheduled (g : Goroutine) (a : nat) (objs : list Context) (m : MState G)
    : list Context * MState G :=
  if decide (holds g = a) then (objs, fst (calls g m))
  else
    match objs !! holds g with
    | Some c =>
        let m' := fst (calls g (fst m, (c, snd (snd m)))) in
        (<[holds g := fst (snd m')]> objs, (fst m', (fst (snd m), snd (snd m'))))
    | None => (objs, m)
    end.

(** [ServeHTTP] at the address the pool gives, with the goroutine (if
    any) that is scheduled after [c.reset(w, req)] and before the first
    event is emitted; the result is the state after the deferred [Put],
    and the address served. *)
Definition ServeHTTP_at (r : Router G) (w : ResponseWriter) (req : HttpRequest)
    (late : option Goroutine) (s : Shared) : Shared * nat :=
  let '(a, objs, free) := poolGetAt (objects s) (freed s) in
  let c := at_ objs a in
  let c := reset c w req in
  let c := set_pipeline (pipeline_set r) c in
  let m : MState G := (pipeOf s, (c, restOf s)) in
  let '(objs, m) := match late with
                    | Some g => scheduled g a objs m
                    | None => (objs, m)
                    end in
  let m := dispatch r req m in
  (mkShared (<[a := fst (snd m)]> objs) (a :: free) (fst m) (snd (snd m)), a).

(** The free contexts of a state, as [Router.Serving] has them. *)
Definition view (s : Shared) : Serving G :=
  mkServing (at_ (objects s) <$> freed s) (pipeOf s) (restOf s).

(** The addresses of the pool are addresses of objects, each once. *)
Definition well_formed (s : Shared) : Prop :=
  NoDup (freed s) ∧ ∀ a, a ∈ freed s → a < length (objects s).

End Objects.

Arguments Shared : clear implicits.
Arguments Goroutine : clear implicits.

End Detached.

(** * The vocabulary of the properties *)

(** ** Pattern parts and parameters *)

Module MatcherSpec.
Import GoStrings Matcher.

(** The pattern parts that are compared position by position: all parts,
    but for the trailing wildcard part when there is one. *)
Definition positionalParts (pattern : string) : list string :=
  stripWildcard (fst (checkWildcard (splitPath pattern))) (splitPath pattern).

(** A part that is a parameter, and the name it binds. *)
Definition isParam (part : string) : bool := HasPrefix part ":".
Definition paramName (part : string) : string := TrimPrefix part ":".

(** After a match, every parameter part has bound its name to the path
    part at its position in the returned parameters. *)
Definition every_param_bound (pattern path : string) : Prop :=
  ∀ params, matchPath pattern path = Some params →
  ∀ i part, positionalParts pattern !! i = Some part → isParam part = true →
    ∃ x, splitPath path !! i = Some x ∧ params !! paramName part = Some x.

End MatcherSpec.

(** ** Histories of the room hub *)

Module HubSpec.
Import Hub.

(** The operations of the Room Hub API: [join], [leave], [leaveAll]. *)
Inductive HubOp :=
| Join (clientID room : string)
| Leave (clientID room : string)
| LeaveAll (clientID : string).

Definition step (h : BaseHub) (op : HubOp) : BaseHub :=
  match op with
  | Join c r => addToRoom c r h
  | Leave c r => removeFromRoom c r h
  | LeaveAll c => removeFromAllRooms c h
  end.

(** A finite sequence of operations, performed first to last. *)
Definition run (ops : list HubOp) (h : BaseHub) : BaseHub := fold_left step ops h.

(** The membership of a room as a set: what [getRoomClientIDs] enumerates. *)
Definition members (room : string) (h : BaseHub) : gset string :=
  default ∅ (rooms h !! room).

(** The specification's words for membership, on the history alone:
    the client joined the room, and has not left it (by [leave] of that
    room or by [leaveAll]) since. *)
Definition joined_and_not_since_left (ops : list HubOp) (clientID room : string) : Prop :=
  ∃ before after,
    ops = before ++ Join clientID room :: after ∧
    (Leave clientID room ∉ after) ∧ (LeaveAll clientID ∉ after).

(** The data-model invariant: a room without members is no entry. *)
Definition no_empty_room (h : BaseHub) : Prop :=
  ∀ room clients, rooms h !! room = Some clients → clients ≠ ∅.

(** A client that was no member is a member, and counted, after it joined
    twice and left once. *)
Definition still_member_after_join_join_leave (h : BaseHub) (c r : string) : Prop :=
  c ∉ members r h →
  let h' := run [Join c r; Join c r; Leave c r] h in
  c ∈ getRoomClientIDs r h' ∧ roomCount r h' = S (roomCount r h).

End HubSpec.

(** ** Emissions *)

Module EventsSpec.
Import Events.

Section Emission.
Context {St Ptr : Type}.
Variable code : Code St Ptr.

(** What the calls of a list of handlers, one after the other, do. *)
Definition callAll (hs : list EventHandler) (c : Ptr) (w : World St) : World St :=
  fold_left (λ w handler, call code handler c w) hs w.

(** The calls of an emission are the handlers registered for the kind when
    the emission begins, in registration order. *)
Definition emit_calls_registered (event : EventType) (ctx : option Ptr)
    (w : World St) : Prop :=
  snd (Emit code event ctx w) = handlers (fst w) !!! event.

End Emission.

(** Closures that do nothing. *)
Definition quietCode {St Ptr : Type} : Code St Ptr := mkCode (λ _ _ w, w) (λ _ w, w).

(** Closures for an emission during which a handler registers another
    one: closure 0 registers closure 1 for [ws_connect]; every closure
    appends its number to the log, which is the rest of the state. *)
Definition registeringCode : Code (list nat) unit :=
  mkCode
    (λ f _ w,
       match f with
       | 0 => (On EventWSConnect (Handler 1) (fst w), snd w ++ [0])
       | _ => (fst w, snd w ++ [f])
       end)
    (λ f w, (fst w, snd w ++ [f])).

End EventsSpec.

(** ** Requests, answers and sample routers *)

Module RouterSpec.
Import Ctx Events Router.
Import Matcher.

Section Resolution.
Context {G : Type}.

(** A route matches a request: same method, and the pattern matches. *)
Definition hits (method path : string) (route : Route G) : Prop :=
  Method route = method ∧ is_Some (matchPath (Path route) path).

(** The router with another route table. *)
Definition with_routes (rs : list (Route G)) (r : Router G) : Router G :=
  mkRouter rs (middlewares r) (notFound r) (methodNotAllowed r) (pipeline_set r).

(** The state a resolved handler starts on: [c.Params = params]. *)
Definition bind_params (params : gmap string string) (m : MState G) : MState G :=
  fst (onContext (λ c, (set_Params params c, tt)) m).

(** If two routes of a table never match the same request, exchanging
    them changes the resolution of no request. *)
Definition reorder_keeps_resolution (r : Router G)
    (pre : list (Route G)) (a : Route G) (mid : list (Route G)) (b : Route G)
    (post : list (Route G)) : Prop :=
  routes r = pre ++ a :: mid ++ b :: post →
  (∀ method path, ¬ (hits method path a ∧ hits method path b)) →
  ∀ method path,
    findRoute (with_routes (pre ++ b :: mid ++ a :: post) r) method path
    = findRoute r method path.

(** The two answers of [handleNoMatch]. *)
Definition answerMethodNotAllowed (r : Router G) : HandlerFunc G :=
  match methodNotAllowed r with
  | Some handler => handler
  | None => onContext (Error StatusMethodNotAllowed "Method Not Allowed")
  end.

Definition answerNotFound (r : Router G) : HandlerFunc G :=
  match notFound r with
  | Some handler => handler
  | None => onContext (Error StatusNotFound "Not Found")
  end.

End Resolution.

(** A table of three routes: two routes that differ in their method, and
    a parameter route between them. *)
Definition okHandler : HandlerFunc unit := λ m, (m, None).
Definition routeGetA : Route unit :=
  mkRoute MethodGet "/a" okHandler [] EmptyString EmptyString [] None None.
Definition routePostA : Route unit :=
  mkRoute MethodPost "/a" okHandler [] EmptyString EmptyString [] None None.
Definition routeGetAny : Route unit :=
  mkRoute MethodGet "/:id" okHandler [] EmptyString EmptyString [] None None.
Definition threeRoutes : Router unit :=
  mkRouter [routeGetA; routeGetAny; routePostA] [] None None true.

(** A table with the single route GET /items. *)
Definition itemsRouter : Router unit := GET "/items" okHandler [] NewRouter.

(** Marks left by middlewares: the rest of the state is the list of the
    marks left so far. *)
Inductive Mark :=
| Enter (label : nat)
| Exit (label : nat).

Definition notes (marks : list Mark) (m : MState (list Mark)) : MState (list Mark) :=
  (fst m, (fst (snd m), snd (snd m) ++ marks)).

(** A middleware that marks its entry, calls the next handler, marks its
    exit, and hands on the error of the next handler. *)
Definition tracing (label : nat) : MiddlewareFunc (list Mark) :=
  λ next m,
    let '(m', err) := next (notes [Enter label] m) in
    (notes [Exit label] m', err).

(** Two handlers on the store of the context: the first stores a key; the
    second looks it up and leaves in the rest of the state whether it
    found it. *)
Definition storeUser : HandlerFunc (list bool) :=
  λ m, (fst (onContext (λ c, (Set_ "user" (AString "alice") c, tt)) m), None).
Definition probeUser : HandlerFunc (list bool) :=
  λ m, ((fst m, (fst (snd m),
                 snd (snd m) ++ [bool_decide (is_Some (Get "user" (fst (snd m))))])),
        None).
Definition sessionRouter : Router (list bool) :=
  GET "/whoami" probeUser [] (POST "/login" storeUser [] NewRouter).

End RouterSpec.

(** ** More vocabulary *)

Module MoreSpec.
Import GoStrings Matcher MatcherSpec Events.

(** The byte occurs in the string. *)
Fixpoint occurs (c : ascii) (s : string) : bool :=
  match s with
  | EmptyString => false
  | String a s' => Ascii.eqb a c || occurs c s'
  end.

(** The pattern can match the path part by part: the counts fit, and
    every positional pattern part is a parameter or is the path part at
    its position. *)
Definition parts_fit (pattern path : string) : Prop :=
  validatePartCounts (positionalParts pattern) (splitPath path)
    (fst (checkWildcard (splitPath pattern))) = true ∧
  ∀ i part, positionalParts pattern !! i = Some part →
    isParam part = true ∨ splitPath path !! i = Some part.

(** A sequence of registrations, performed first to last. *)
Definition registerAll (regs : list (EventType * EventHandler)) (p : EventPipeline)
    : EventPipeline :=
  fold_left (λ p reg, On (fst reg) (snd reg) p) regs p.

(** The handlers a sequence of registrations gives to a kind, in order. *)
Definition registeredFor (event : EventType) (regs : list (EventType * EventHandler))
    : list EventHandler :=
  snd <$> filter (λ reg, fst reg = event) regs.

End MoreSpec.

Module ServingSpec.
Import Ctx Events Router.

(** The route [addRoute] makes. *)
Definition newRoute {G : Type} (method routePath : string) (handler : HandlerFunc G)
    (mws : list (MiddlewareFunc G)) : Route G :=
  mkRoute method routePath handler mws EmptyString EmptyString [] None None.

(** The calls of the default error response. *)
Definition errorCalls (code : Z) (message : string) : list WriterCall :=
  [HeaderSet HeaderContentType ContentTypeJSON;
   WriteHeader code;
   EncodeJSON (AH [("error", AString message)])].

(** The context after more calls on its writer [w]. *)
Definition appended (c : Context) (w : ResponseWriter) (calls : list WriterCall) : Context :=
  set_Writer (Some (mkResponseWriter (received w ++ calls) (writeErr w))) c.

(** The contexts whose store has been made. The zero value [&Context{}]
    has a nil [keys] map, on which [Set] panics; [NewContext] and [reset]
    make the map, and the assignments below keep it. The context that
    [ServeHTTP] acquires for a request is one of these. *)
Inductive store_made : Context → Prop :=
| made_NewContext w r : store_made (NewContext w r)
| made_reset c w r : store_made (reset c w r)
| made_pipeline p c : store_made c → store_made (set_pipeline p c)
| made_Params ps c : store_made c → store_made (set_Params ps c)
| made_Set key value c : store_made c → store_made (Set_ key value c).

End ServingSpec.

Module MiddlewareSpec.
Import Ctx Middleware.

(** The headers the CORS middleware sets for a request of an allowed
    origin, before it looks at the method. *)
Definition corsHeaderCalls (config : CORSConfig) (origin : string) : list WriterCall :=
  (if bool_decide (AllowOrigins config = ["*"])
   then [HeaderSet (Text "Access-Control-Allow-Origin") (Text "*")]
   else [HeaderSet (Text "Access-Control-Allow-Origin") (Text origin);
         HeaderSet (Text "Vary") (Text "Origin")]) ++
  (if AllowCredentials config
   then [HeaderSet (Text "Access-Control-Allow-Credentials") (Text "true")]
   else []) ++
  (if bool_decide (0 < length (ExposeHeaders config))
   then [HeaderSet (Text "Access-Control-Expose-Headers")
           (Text (GoStrings.Join (ExposeHeaders config) ", "))]
   else []).

(** The headers it adds for a preflight request, and the status. *)
Definition preflightCalls (Itoa : Z → string) (config : CORSConfig) : list WriterCall :=
  [HeaderSet (Text "Access-Control-Allow-Methods")
     (Text (GoStrings.Join (AllowMethods config) ", "));
   HeaderSet (Text "Access-Control-Allow-Headers")
     (Text (GoStrings.Join (AllowHeaders config) ", "));
   HeaderSet (Text "Access-Control-Max-Age") (Text (Itoa (MaxAge config)));
   WriteHeader CtxMore.StatusNoContent].

End MiddlewareSpec.

(** ** A login under a timeout *)

Module DetachedSpec.
Import Ctx Events Router RouterSpec Middleware Detached.

(** The router [sessionRouter] with its login route under a [Timeout] of
    one second, in the case where the timer comes first: the handler is
    slow to reach its [Set]. *)
Definition loginTimeout : MiddlewareFunc (list bool) := Timeout 1000000000 TimerFirst.
Definition timeoutRouter : Router (list bool) :=
  GET "/whoami" probeUser [] (POST "/login" storeUser [loginTimeout] NewRouter).

End DetachedSpec.

(** * The properties *)

(** ** Path matching *)

Module MatcherTheory.
Import GoStrings Matcher MatcherSpec.

Lemma matchParts_positions pp i xs ps out :
  matchParts pp i xs ps = Some out →
  ∀ k part, pp !! k = Some part →
    ∃ x, xs !! (i + k) = Some x ∧ (isParam part = false → part = x).
Proof.
  revert i ps. induction pp as [|first pp IH]; intros i ps Hrun k part Hk.
  - by rewrite lookup_nil in Hk.
  - simpl in Hrun. destruct (xs !! i) as [x|] eqn:Hx; [|done].
    destruct k as [|k]; simpl in Hk.
    + injection Hk as ->. exists x. rewrite Nat.add_0_r. split; [done|].
      unfold isParam. intros Hlit. rewrite Hlit in Hrun.
      case_bool_decide; [done|discriminate].
    + replace (i + S k) with (S i + k) by lia.
      destruct (HasPrefix first ":").
      * by apply (IH _ _ Hrun).
      * case_bool_decide; [|done]. by apply (IH _ _ Hrun).
Qed.

Lemma matchParts_keeps pp i xs ps out name :
  matchParts pp i xs ps = Some out →
  (∀ part, part ∈ pp → isParam part = true → paramName part ≠ name) →
  out !! name = ps !! name.
Proof.
  revert i ps. induction pp as [|first pp IH]; intros i ps Hrun Hfree.
  - simpl in Hrun. by injection Hrun as ->.
  - simpl in Hrun. destruct (xs !! i) as [x|] eqn:Hx; [|done].
    assert (∀ part, part ∈ pp → isParam part = true → paramName part ≠ name) as Hfree'.
    { intros part Hin. apply Hfree. by right. }
    destruct (HasPrefix first ":") eqn:Hparam.
    + rewrite (IH _ _ Hrun Hfree'). apply lookup_insert_ne.
      apply Hfree; [by left|done].
    + case_bool_decide; [|done]. by apply (IH _ _ Hrun).
Qed.

Lemma matchParts_binds pp i xs ps out k part x :
  matchParts pp i xs ps = Some out →
  pp !! k = Some part → isParam part = true → xs !! (i + k) = Some x →
  (∀ j part', k < j → pp !! j = Some part' → isParam part' = true →
              paramName part' ≠ paramName part) →
  out !! paramName part = Some x.
Proof.
  revert i ps k. induction pp as [|first pp IH]; intros i ps k Hrun Hk Hparam Hx Hlast.
  - by rewrite lookup_nil in Hk.
  - simpl in Hrun. destruct (xs !! i) as [x0|] eqn:Hx0; [|done].
    destruct k as [|k]; simpl in Hk.
    + injection Hk as ->. rewrite Nat.add_0_r in Hx.
      assert (x0 = x) as -> by congruence.
      unfold isParam in Hparam. rewrite Hparam in Hrun.
      rewrite (matchParts_keeps _ _ _ _ _ (paramName part) Hrun).
      * apply lookup_insert_eq.
      * intros part' [j Hj]%list_elem_of_lookup Hp'.
        apply (Hlast (S j)); [lia|done|done].
    + replace (i + S k) with (S i + k) in Hx by lia.
      assert (∀ j part', k < j → pp !! j = Some part' → isParam part' = true →
                paramName part' ≠ paramName part) as Hlast'.
      { intros j part' Hj. apply (Hlast (S j)). lia. }
      destruct (HasPrefix first ":").
      * by apply (IH _ _ _ Hrun Hk).
      * case_bool_decide; [|done]. by apply (IH _ _ _ Hrun Hk).
Qed.

Lemma matchParts_succeeds pp i xs ps :
  (∀ k part, pp !! k = Some part →
     isParam part = true ∨ xs !! (i + k) = Some part) →
  i + length pp ≤ length xs →
  is_Some (matchParts pp i xs ps).
Proof.
  revert i ps. induction pp as [|first pp IH]; intros i ps Hall Hlen; [by eexists|].
  simpl in *. destruct (lookup_lt_is_Some_2 xs i) as [x Hx]; [lia|]. rewrite Hx.
  assert (∀ k part, pp !! k = Some part →
            isParam part = true ∨ xs !! (S i + k) = Some part) as Hall'.
  { intros k part Hk. replace (S i + k) with (i + S k) by lia. by apply Hall. }
  destruct (HasPrefix first ":") eqn:Hparam.
  - apply IH; [done|lia].
  - destruct (Hall 0 first eq_refl) as [Hp|Hlit].
    + unfold isParam in Hp. congruence.
    + rewrite Nat.add_0_r in Hlit.
      rewrite bool_decide_eq_true_2 by congruence. apply IH; [done|lia].
Qed.

(** The equations of [matchPath] on its two paths. *)
Lemma matchPath_fast pattern : matchPath pattern pattern = Some ∅.
Proof. unfold matchPath. by rewrite bool_decide_eq_true_2. Qed.

Lemma matchPath_slow pattern path :
  pattern ≠ path →
  matchPath pattern path =
    let parts := splitPath pattern in
    let w := checkWildcard parts in
    let pp := positionalParts pattern in
    if negb (validatePartCounts pp (splitPath path) (fst w)) then None
    else match matchParts pp 0 (splitPath path) ∅ with
         | None => None
         | Some params =>
             if fst w
             then Some (<[snd w := Join (drop (length pp) (splitPath path)) "/"]> params)
             else Some params
         end.
Proof.
  intros Hne. unfold matchPath, positionalParts.
  rewrite bool_decide_eq_false_2 by done.
  by destruct (checkWildcard (splitPath pattern)) as [hasWildcard name].
Qed.

Lemma positionalParts_prefix pattern i part :
  positionalParts pattern !! i = Some part → splitPath pattern !! i = Some part.
Proof.
  unfold positionalParts, stripWildcard.
  destruct (fst (checkWildcard (splitPath pattern))); [|done].
  intros H. by apply lookup_take_Some in H as [? _].
Qed.

(** C6 fails for a pattern that uses a name twice: the second binding
    replaces the first. *)
Lemma duplicate_name_counterexample : ¬ every_param_bound "/:id/:id" "/1/2".
Proof.
  intros H.
  assert (matchPath "/:id/:id" "/1/2" = Some {[ "id" := "2" ]}) as Hmatch.
  { vm_compute. reflexivity. }
  destruct (H _ Hmatch 0 ":id" eq_refl eq_refl) as (x & Hx & Hbound).
  vm_compute in Hx. injection Hx as <-. vm_compute in Hbound. discriminate.
Qed.

(** C6, amended. When [matchPath] returns true, every pattern part before
    the trailing wildcard has a path part at its position; a part that
    does not begin with a colon equals that path part; and, when pattern
    and path are different strings, a part that begins with a colon has
    bound its name to that path part in the returned parameters, unless a
    later colon part or the wildcard has the same name (the later binding
    replaces the earlier one). *)
Theorem match_binds_params_by_position (pattern path : string)
    (params : gmap string string) :
  matchPath pattern path = Some params →
  (∀ i part, positionalParts pattern !! i = Some part →
     ∃ x, splitPath path !! i = Some x ∧ (isParam part = false → part = x)) ∧
  (pattern ≠ path →
   ∀ i part x, positionalParts pattern !! i = Some part → isParam part = true →
     splitPath path !! i = Some x →
     (∀ j part', i < j → positionalParts pattern !! j = Some part' →
                 isParam part' = true → paramName part' ≠ paramName part) →
     (fst (checkWildcard (splitPath pattern)) = true →
      snd (checkWildcard (splitPath pattern)) ≠ paramName part) →
     params !! paramName part = Some x) ∧
  matchPath "/users/:id" "/users/42" = Some {[ "id" := "42" ]}.
Proof.
  intros Hmatch. split; [|split; [|vm_compute; reflexivity]].
  - destruct (decide (pattern = path)) as [<-|Hne].
    + intros i part Hi. exists part. split; [|done].
      by apply positionalParts_prefix.
    + rewrite matchPath_slow in Hmatch by done. simpl in Hmatch.
      destruct (negb _); [done|].
      destruct (matchParts _ 0 _ ∅) as [out|] eqn:Hrun; [|done].
      intros i part Hi. by apply (matchParts_positions _ _ _ _ _ Hrun).
  - intros Hne i part x Hi Hparam Hx Hlast Hwild.
    rewrite matchPath_slow in Hmatch by done. simpl in Hmatch.
    destruct (negb _); [done|].
    destruct (matchParts _ 0 _ ∅) as [out|] eqn:Hrun; [|done].
    pose proof (matchParts_binds _ _ _ _ _ _ _ _ Hrun Hi Hparam Hx Hlast) as Hout.
    destruct (fst (checkWildcard (splitPath pattern))).
    + injection Hmatch as <-. rewrite lookup_insert_ne; [done|]. by apply Hwild.
    + by injection Hmatch as <-.
Qed.

Lemma match_binds_params_witness :
  matchPath "/users/:id" "/users/42" = Some {[ "id" := "42" ]} ∧
  ({[ "id" := "42" ]} : gmap string string) !! paramName ":id" = Some "42".
Proof.
  assert (matchPath "/users/:id" "/users/42" = Some {[ "id" := "42" ]}) as Hmatch.
  { vm_compute. reflexivity. }
  split; [exact Hmatch|].
  apply (proj1 (proj2 (match_binds_params_by_position _ _ _ Hmatch))
           ltac:(discriminate) 1 ":id" "42").
  - reflexivity.
  - reflexivity.
  - reflexivity.
  - intros j part' Hj Hlook. vm_compute in Hlook.
    destruct j as [|[|j]]; [lia|lia|discriminate].
  - intros Hw. vm_compute in Hw. discriminate.
Defined.

(** X3. The trailing wildcard on the path of [matchPath] that compares the
    parts: the name after the star is bound to the remaining path parts,
    joined by slashes, and to the empty string when none remains. *)
Lemma wildcard_captures_remaining (pattern path name : string) :
  checkWildcard (splitPath pattern) = (true, name) →
  length (positionalParts pattern) ≤ length (splitPath path) →
  (∀ i part, positionalParts pattern !! i = Some part →
     isParam part = true ∨ splitPath path !! i = Some part) →
  pattern ≠ path →
  ∃ params, matchPath pattern path = Some params ∧
    params !! name
    = Some (Join (drop (length (positionalParts pattern)) (splitPath path)) "/") ∧
    (length (splitPath path) = length (positionalParts pattern) →
     params !! name = Some EmptyString).
Proof.
  intros Hw Hlen Hall Hne. rewrite matchPath_slow by done. simpl.
  rewrite Hw. simpl. unfold validatePartCounts.
  rewrite bool_decide_eq_true_2 by done. simpl.
  destruct (matchParts_succeeds (positionalParts pattern) 0 (splitPath path) ∅)
    as [out Hout]; [done|lia|].
  rewrite Hout. eexists. split; [done|].
  rewrite lookup_insert_eq. split; [done|].
  intros Heq. by rewrite <- Heq, drop_all.
Qed.

Example wildcard_static :
  matchPath "/static/*filepath" "/static/css/app.css"
  = Some {[ "filepath" := "css/app.css" ]}.
Proof. vm_compute. reflexivity. Qed.

Example wildcard_nothing_left :
  matchPath "/static/*filepath" "/static" = Some {[ "filepath" := EmptyString ]}.
Proof. vm_compute. reflexivity. Qed.

(** C7 at a request path that is the pattern itself. The pattern ends in
    a wildcard part, the path has one part more than the pattern without
    its wildcard part, and the part before it is equal; but the early
    return for equal strings answers before any capture, and the wildcard
    name is not bound (the comparison of the parts would bind it to the
    remaining part). *)
Theorem wildcard_lost_on_equal_strings :
  let pattern := "/static/*filepath" in
  let path := "/static/*filepath" in
  checkWildcard (splitPath pattern) = (true, "filepath") ∧
  positionalParts pattern = ["static"] ∧
  splitPath path = ["static"; "*filepath"] ∧
  Join (drop (length (positionalParts pattern)) (splitPath path)) "/" = "*filepath" ∧
  matchPath pattern path = Some ∅ ∧
  (∀ params, matchPath pattern path = Some params → params !! "filepath" = None).
Proof.
  vm_compute. repeat split; try reflexivity.
  intros params [= <-]. reflexivity.
Qed.

Example param_lost_on_equal_strings :
  matchPath "/users/:id" "/users/:id" = Some ∅.
Proof. vm_compute. reflexivity. Qed.

Example matchPath_users_too_short : matchPath "/users/:id" "/users" = None.
Proof. vm_compute. reflexivity. Qed.

Example matchPath_case_sensitive : matchPath "/Users/:id" "/users/42" = None.
Proof. vm_compute. reflexivity. Qed.

Example splitPath_examples :
  splitPath "/users/:id" = ["users"; ":id"] ∧
  splitPath "/" = [EmptyString] ∧
  splitPath EmptyString = [EmptyString] ∧
  splitPath "//a//b/" = ["a"; EmptyString; "b"].
Proof. repeat split. Qed.

End MatcherTheory.

(** ** The room hub *)

Module HubTheory.
Import Hub HubSpec.

(** A set of size zero is the empty set. *)
Ltac emptied H := apply size_empty_inv in H; apply leibniz_equiv in H.

Lemma members_addToRoom c r r' h :
  members r' (addToRoom c r h)
  = if decide (r = r') then {[c]} ∪ members r' h else members r' h.
Proof.
  unfold members, addToRoom.
  destruct (rooms h !! r) as [s|] eqn:Hr; simpl.
  - rewrite Hr. simpl. case_decide; subst.
    + rewrite lookup_insert_eq, Hr. done.
    + rewrite lookup_insert_ne by done. done.
  - rewrite lookup_insert_eq. simpl. case_decide; subst.
    + rewrite lookup_insert_eq, Hr. simpl. done.
    + rewrite !lookup_insert_ne by done. done.
Qed.

Lemma members_removeFromRoom c r r' h :
  members r' (removeFromRoom c r h)
  = if decide (r = r') then members r' h ∖ {[c]} else members r' h.
Proof.
  unfold members, removeFromRoom.
  destruct (rooms h !! r) as [s|] eqn:Hr; simpl.
  - destruct (decide (size (s ∖ {[c]}) = 0)) as [Hz|Hz]; simpl.
    + emptied Hz.
      case_decide; subst.
      * rewrite lookup_delete_eq, Hr. simpl. by rewrite Hz.
      * by rewrite lookup_delete_ne.
    + case_decide; subst.
      * rewrite lookup_insert_eq, Hr. done.
      * by rewrite lookup_insert_ne.
  - case_decide; subst; [|done]. rewrite Hr. simpl. set_solver.
Qed.

Lemma members_removeFromAllRooms c r' h :
  members r' (removeFromAllRooms c h) = members r' h ∖ {[c]}.
Proof.
  unfold members, removeFromAllRooms. simpl.
  rewrite lookup_omap.
  destruct (rooms h !! r') as [s|]; simpl; [|set_solver].
  destruct (decide (size (s ∖ {[c]}) = 0)) as [Hz|Hz]; simpl; [|done].
  emptied Hz. by rewrite Hz.
Qed.

Lemma roomCount_members r h : roomCount r h = size (members r h).
Proof.
  unfold roomCount, members. by destruct (rooms h !! r).
Qed.

Lemma getRoomClientIDs_members r h : getRoomClientIDs r h = elements (members r h).
Proof.
  unfold getRoomClientIDs, members. by destruct (rooms h !! r).
Qed.

Lemma run_snoc ops op h : run (ops ++ [op]) h = step (run ops h) op.
Proof. unfold run. by rewrite fold_left_app. Qed.

Lemma joined_snoc ops op c r :
  joined_and_not_since_left (ops ++ [op]) c r
  ↔ op = Join c r ∨
    (joined_and_not_since_left ops c r ∧ op ≠ Leave c r ∧ op ≠ LeaveAll c).
Proof.
  unfold joined_and_not_since_left. split.
  - intros (before & after & Heq & Hl & Hla).
    destruct (decide (after = [])) as [->|Hne].
    + left. apply (app_inj_tail ops before op (Join c r)) in Heq. by destruct Heq.
    + right. destruct (exists_last Hne) as (after' & op' & ->).
      rewrite app_comm_cons, app_assoc in Heq.
      apply app_inj_tail in Heq as [-> ->].
      rewrite !not_elem_of_app, !not_elem_of_cons in Hl, Hla.
      split; [|naive_solver].
      exists before, after'. naive_solver.
  - intros [->|((before & after & -> & Hl & Hla) & Hn1 & Hn2)].
    + exists ops, []. split; [done|]. split; apply not_elem_of_nil.
    + exists before, (after ++ [op]). split.
      * by rewrite <- app_assoc.
      * rewrite !not_elem_of_app, !not_elem_of_cons.
        split; (split; [done|]); (split; [congruence|apply not_elem_of_nil]).
Qed.

Lemma not_joined_nil c r : ¬ joined_and_not_since_left [] c r.
Proof. intros (before & after & Heq & _). by destruct before. Qed.

Lemma members_history ops c r :
  c ∈ members r (run ops newBaseHub) ↔ joined_and_not_since_left ops c r.
Proof.
  revert c r. induction ops as [|op ops IH] using rev_ind; intros c r.
  - split; [|by intros ?%not_joined_nil].
    unfold members, run. simpl. rewrite lookup_empty. simpl. set_solver.
  - rewrite run_snoc, joined_snoc. destruct op as [c' r'|c' r'|c']; simpl.
    + rewrite members_addToRoom. case_decide; subst.
      * rewrite elem_of_union, elem_of_singleton, IH. naive_solver.
      * rewrite IH. naive_solver.
    + rewrite members_removeFromRoom. case_decide; subst.
      * rewrite elem_of_difference, elem_of_singleton, IH. naive_solver.
      * rewrite IH. naive_solver.
    + rewrite members_removeFromAllRooms.
      rewrite elem_of_difference, elem_of_singleton, IH. naive_solver.
Qed.

Lemma no_empty_room_step h op : no_empty_room h → no_empty_room (step h op).
Proof.
  unfold no_empty_room. intros Hinv room clients.
  destruct op as [c r|c r|c]; simpl.
  - unfold addToRoom. destruct (rooms h !! r) as [s|] eqn:Hr; simpl.
    + rewrite Hr. simpl. rewrite lookup_insert. case_decide; subst.
      * intros [= <-]. set_solver.
      * apply Hinv.
    + rewrite lookup_insert_eq. simpl. rewrite lookup_insert. case_decide; subst.
      * intros [= <-]. set_solver.
      * rewrite lookup_insert_ne by done. apply Hinv.
  - unfold removeFromRoom. destruct (rooms h !! r) as [s|] eqn:Hr; simpl; [|apply Hinv].
    destruct (decide (size (s ∖ {[c]}) = 0)) as [Hz|Hz]; simpl.
    + rewrite lookup_delete. case_decide; [done|apply Hinv].
    + rewrite lookup_insert. case_decide; subst; [|apply Hinv].
      intros [= <-] He. apply Hz. rewrite He. apply size_empty.
  - unfold removeFromAllRooms. simpl. rewrite lookup_omap.
    destruct (rooms h !! room) as [s|]; simpl; [|done].
    destruct (decide (size (s ∖ {[c]}) = 0)) as [Hz|Hz]; simpl; [done|].
    intros [= <-] He. apply Hz. rewrite He. apply size_empty.
Qed.

Lemma no_empty_room_run ops : no_empty_room (run ops newBaseHub).
Proof.
  induction ops as [|op ops IH] using rev_ind.
  - intros room clients. unfold run. simpl. by rewrite lookup_empty.
  - rewrite run_snoc. by apply no_empty_room_step.
Qed.

Lemma join_member_noop c r h : c ∈ members r h → addToRoom c r h = h.
Proof.
  unfold members, addToRoom. destruct h as [rs b]. simpl.
  destruct (rs !! r) as [s|] eqn:Hr; simpl; [|set_solver].
  intros Hc. rewrite Hr. f_equal. apply insert_id. rewrite Hr. f_equal. set_solver.
Qed.

Lemma leave_nonmember_noop c r h :
  no_empty_room h → c ∉ members r h → removeFromRoom c r h = h.
Proof.
  unfold members, removeFromRoom, no_empty_room. destruct h as [rs b]. simpl.
  intros Hinv. destruct (rs !! r) as [s|] eqn:Hr; simpl; [|done].
  intros Hc. assert (s ∖ {[c]} = s) as -> by set_solver.
  destruct (decide (size s = 0)) as [Hz|Hz].
  - emptied Hz. by destruct (Hinv r s Hr).
  - f_equal. by apply insert_id.
Qed.

Lemma leave_nonmember_count c r r' h :
  c ∉ members r h → roomCount r' (removeFromRoom c r h) = roomCount r' h.
Proof.
  intros Hc. rewrite !roomCount_members, members_removeFromRoom.
  case_decide; subst; [|done]. f_equal. set_solver.
Qed.

(** C5. After any finite sequence of join, leave and leaveAll operations
    on a new hub, the members of a room are exactly the clients that
    joined it and have not left it since; [roomCount] is the number of
    these clients and [getRoomClientIDs] lists them without repetition;
    a join by a member and a leave by a non-member leave the hub as it
    is; and join, join, leave of c1 in the lobby gives the count 0. *)
Theorem room_membership_is_joins_minus_leaves (ops : list HubOp) (room : string) :
  let h := run ops newBaseHub in
  (∀ c, c ∈ members room h ↔ joined_and_not_since_left ops c room) ∧
  roomCount room h = size (members room h) ∧
  (NoDup (getRoomClientIDs room h) ∧
   ∀ c, c ∈ getRoomClientIDs room h ↔ c ∈ members room h) ∧
  (∀ c, c ∈ members room h → step h (Join c room) = h) ∧
  (∀ c, c ∉ members room h →
        step h (Leave c room) = h ∧ roomCount room (step h (Leave c room)) = roomCount room h) ∧
  roomCount "lobby"
    (run [Join "c1" "lobby"; Join "c1" "lobby"; Leave "c1" "lobby"] newBaseHub) = 0.
Proof.
  intros h. split; [|split; [|split; [|split; [|split]]]].
  - intros c. apply members_history.
  - apply roomCount_members.
  - rewrite getRoomClientIDs_members. split; [apply NoDup_elements|].
    intros c. apply elem_of_elements.
  - intros c Hc. simpl. by apply join_member_noop.
  - intros c Hc. simpl. split.
    + apply leave_nonmember_noop; [apply no_empty_room_run|done].
    + by apply leave_nonmember_count.
  - reflexivity.
Qed.

Lemma room_membership_witness :
  "c1" ∈ members "lobby" (run [Join "c1" "lobby"] newBaseHub) ∧
  step (run [Join "c1" "lobby"] newBaseHub) (Join "c1" "lobby")
  = run [Join "c1" "lobby"] newBaseHub.
Proof.
  assert ("c1" ∈ members "lobby" (run [Join "c1" "lobby"] newBaseHub)) as Hin.
  { vm_compute. reflexivity. }
  split; [exact Hin|].
  exact (proj1 (proj2 (proj2 (proj2
    (room_membership_is_joins_minus_leaves [Join "c1" "lobby"] "lobby")))) "c1" Hin).
Defined.

(** C9 fails on a new hub: the single leave removes the client. *)
Lemma join_join_leave_not_member_counterexample :
  ¬ still_member_after_join_join_leave newBaseHub "c1" "lobby".
Proof.
  unfold still_member_after_join_join_leave. intros H.
  assert ("c1" ∉ members "lobby" newBaseHub) as Hnot.
  { vm_compute. discriminate. }
  destruct (H Hnot) as [_ Hcount]. vm_compute in Hcount. discriminate.
Qed.

(** C9, amended. After join(c, r), join(c, r), leave(c, r) the client is
    not a member of the room any more: [getRoomClientIDs] does not list
    it, and [roomCount] is the number of the other members. *)
Theorem join_join_leave_not_member (h : BaseHub) (c r : string) :
  let h' := run [Join c r; Join c r; Leave c r] h in
  (c ∉ getRoomClientIDs r h') ∧
  (c ∉ members r h') ∧
  roomCount r h' = size (members r h ∖ {[c]}).
Proof.
  intros h'. subst h'. unfold run. simpl.
  assert (members r (removeFromRoom c r (addToRoom c r (addToRoom c r h)))
          = members r h ∖ {[c]}) as Hm.
  { rewrite members_removeFromRoom, !members_addToRoom.
    rewrite !decide_True by done. set_solver. }
  rewrite getRoomClientIDs_members, roomCount_members, Hm.
  rewrite elem_of_elements. set_solver.
Qed.

End HubTheory.

(** ** The event pipeline and the server lifecycle *)

Module EventsTheory.
Import Events EventsSpec.

Section Emission.
Context {St Ptr : Type}.
Variable code : Code St Ptr.

Lemma emitLoop_some hs c w :
  emitLoop code hs (Some c) w = (callAll code hs c w, hs).
Proof.
  revert w. induction hs as [|handler rest IH]; intros w; simpl; [done|].
  by rewrite IH.
Qed.

Lemma emitLoop_nil_ctx hs w : emitLoop code hs None w = (w, []).
Proof. induction hs as [|handler rest IH]; simpl; done. Qed.

Lemma asyncLoop_some hs (c : Ptr) : asyncLoop hs (Some c) = map (λ handler, (handler, c)) hs.
Proof. induction hs as [|handler rest IH]; simpl; [done|]. by rewrite IH. Qed.

Lemma asyncLoop_nil_ctx hs : asyncLoop hs (@None Ptr) = [].
Proof. induction hs as [|handler rest IH]; simpl; done. Qed.

Lemma On_lookup event handler p :
  handlers (On event handler p) !!! event = handlers p !!! event ++ [handler].
Proof. unfold On. simpl. by rewrite lookup_total_insert_eq. Qed.

Lemma On_lookup_ne event event' handler p :
  event ≠ event' → handlers (On event handler p) !!! event' = handlers p !!! event'.
Proof. intros. unfold On. simpl. by rewrite lookup_total_insert_ne. Qed.

(** C8, amended. For every kind, every registered handlers and every
    context pointer that is not nil, one call of [Emit] calls the handlers
    registered for the kind when the call begins, each once per
    registration and in registration order, one after the other before it
    returns; what a handler registers or removes while it runs does not
    change the calls of this emission. *)
Theorem Emit_calls_snapshot_in_order (event : EventType) (c : Ptr) (w : World St) :
  let registered := handlers (fst w) !!! event in
  emit_calls_registered code event (Some c) w ∧
  Emit code event (Some c) w = (callAll code registered c w, registered).
Proof.
  intros registered. unfold emit_calls_registered, Emit.
  fold registered. by rewrite emitLoop_some.
Qed.

(** C10 (first half). With a nil context neither [Emit] nor [EmitAsync]
    calls any handler, and [Emit] leaves the world as it is. *)
Lemma Emit_nil_calls_nothing (event : EventType) (w : World St) :
  Emit code event None w = (w, []) ∧ EmitAsync event (@None Ptr) w = [].
Proof.
  unfold Emit, EmitAsync. by rewrite emitLoop_nil_ctx, asyncLoop_nil_ctx.
Qed.

End Emission.

(** C8 fails for the nil context: a registered handler is not called. *)
Lemma Emit_nil_context_counterexample :
  ¬ emit_calls_registered (quietCode (Ptr := unit)) EventWSConnect None
      (On EventWSConnect (Handler 0) NewEventPipeline, tt).
Proof. unfold emit_calls_registered. vm_compute. discriminate. Qed.

Example Emit_skips_handler_registered_meanwhile :
  let w0 : World (list nat) := (On EventWSConnect (Handler 0) NewEventPipeline, []) in
  let '(w1, called1) := Emit registeringCode EventWSConnect (Some tt) w0 in
  let '(w2, called2) := Emit registeringCode EventWSConnect (Some tt) w1 in
  called1 = [Handler 0] ∧ snd w1 = [0] ∧
  handlers (fst w1) !!! EventWSConnect = [Handler 0; Handler 1] ∧
  called2 = [Handler 0; Handler 1] ∧ snd w2 = [0; 0; 1].
Proof. vm_compute. repeat split; reflexivity. Qed.

(** C10. With a nil context [Emit] and [EmitAsync] call no handler,
    whatever is registered; [Server.Run] and [Server.Shutdown] (and the
    graceful shutdown) emit [server_start] and [server_stop] with a nil
    context, so the handlers of these kinds, also those registered by
    [OnServerStart] and [OnServerStop], are not called by them. *)
Theorem nil_context_emission_calls_no_handler
    {St Ptr : Type} (code : Code St Ptr) (event : EventType) (w : World St) :
  Emit code event None w = (w, []) ∧
  EmitAsync event (@None Ptr) w = [] ∧
  Server.Run code w = (w, []) ∧
  (∀ started, Server.Shutdown code started w = (w, [])) ∧
  Server.runWithGracefulShutdown_stop code w = (w, []) ∧
  (∀ f, let w' := (OnServerStart f (fst w), snd w) in
        NoArgHandler f ∈ handlers (fst w') !!! EventServerStart ∧
        Server.Run code w' = (w', [])) ∧
  (∀ f, let w' := (OnServerStop f (fst w), snd w) in
        NoArgHandler f ∈ handlers (fst w') !!! EventServerStop ∧
        Server.Shutdown code true w' = (w', []) ∧
        Server.runWithGracefulShutdown_stop code w' = (w', [])).
Proof.
  pose proof (λ e w, proj1 (Emit_nil_calls_nothing code e w)) as HE.
  split; [apply HE|]. split; [apply Emit_nil_calls_nothing; exact code|].
  unfold Server.Run, Server.Shutdown, Server.runWithGracefulShutdown_stop.
  split; [apply HE|]. split; [intros []; [apply HE|done]|]. split; [apply HE|].
  split; intros f; cbn [fst snd].
  - split; [|apply HE]. unfold OnServerStart. rewrite On_lookup. set_solver.
  - split; [|split; apply HE]. unfold OnServerStop. rewrite On_lookup. set_solver.
Qed.

End EventsTheory.

(** ** Resolution, dispatch, chains and pooling *)

Module RouterTheory.
Import Ctx Events Router RouterSpec.
Import Matcher.

Section Resolution.
Context {G : Type}.
Implicit Types (route first a b : Route G) (rs pre post mid : list (Route G)).
Implicit Types (r : Router G) (m : MState G).

Lemma findRouteIn_cons route rs method path :
  findRouteIn (route :: rs) method path
  = if bool_decide (Method route = method)
    then match matchPath (Path route) path with
         | Some params => Some (route, params)
         | None => findRouteIn rs method path
         end
    else findRouteIn rs method path.
Proof. simpl. by destruct (bool_decide (Method route = method)). Qed.

Lemma findRouteIn_miss route rs method path :
  ¬ hits method path route →
  findRouteIn (route :: rs) method path = findRouteIn rs method path.
Proof.
  intros Hno. rewrite findRouteIn_cons. case_bool_decide as Hm; [|done].
  destruct (matchPath (Path route) path) as [params|] eqn:Hp; [|done].
  destruct Hno. split; [done|]. rewrite Hp. by eexists.
Qed.

Lemma findRouteIn_hit route rs method path params :
  Method route = method → matchPath (Path route) path = Some params →
  findRouteIn (route :: rs) method path = Some (route, params).
Proof.
  intros Hm Hp. rewrite findRouteIn_cons, bool_decide_eq_true_2 by done.
  by rewrite Hp.
Qed.

Lemma findRouteIn_skip pre rs method path :
  Forall (λ route, ¬ hits method path route) pre →
  findRouteIn (pre ++ rs) method path = findRouteIn rs method path.
Proof.
  induction 1 as [|route pre Hno _ IH]; [done|].
  rewrite <- app_comm_cons, findRouteIn_miss by done. exact IH.
Qed.

Lemma findRouteIn_Some rs method path route params :
  findRouteIn rs method path = Some (route, params) →
  ∃ pre post, rs = pre ++ route :: post ∧
    Forall (λ route', ¬ hits method path route') pre ∧
    Method route = method ∧ matchPath (Path route) path = Some params.
Proof.
  induction rs as [|first rs IH]; [done|].
  rewrite findRouteIn_cons. case_bool_decide as Hm.
  - destruct (matchPath (Path first) path) as [ps|] eqn:Hp.
    + intros [= -> ->]. exists [], rs. by repeat split.
    + intros (pre & post & -> & Hpre & ? & ?)%IH.
      exists (first :: pre), post. repeat split; try done.
      constructor; [|done]. intros [_ [? Hs]]. congruence.
  - intros (pre & post & -> & Hpre & ? & ?)%IH.
    exists (first :: pre), post. repeat split; try done.
    constructor; [|done]. by intros [? _].
Qed.

Lemma findRouteIn_None rs method path :
  findRouteIn rs method path = None ↔
  ∀ route, route ∈ rs → ¬ hits method path route.
Proof.
  induction rs as [|first rs IH].
  - split; [|done]. intros _ route Hin. by apply elem_of_nil in Hin.
  - rewrite findRouteIn_cons. split.
    + intros Hnone route [->|Hin]%elem_of_cons.
      * intros [Hm [ps Hp]]. rewrite bool_decide_eq_true_2, Hp in Hnone by done.
        discriminate.
      * apply IH; [|done]. case_bool_decide; [|done].
        by destruct (matchPath (Path first) path).
    + intros Hall. rewrite <- findRouteIn_cons, findRouteIn_miss.
      * apply IH. intros route Hin. apply Hall. by right.
      * apply Hall. by left.
Qed.

Lemma findRouteIn_first pre route post method path params :
  Forall (λ route', ¬ hits method path route') pre →
  Method route = method → matchPath (Path route) path = Some params →
  findRouteIn (pre ++ route :: post) method path = Some (route, params).
Proof.
  intros Hpre Hm Hp. rewrite findRouteIn_skip by done.
  by apply findRouteIn_hit.
Qed.

Lemma findRouteIn_drop_miss mid route post method path :
  ¬ hits method path route →
  findRouteIn (mid ++ route :: post) method path = findRouteIn (mid ++ post) method path.
Proof.
  intros Hno. induction mid as [|first mid IH].
  - by apply findRouteIn_miss.
  - by rewrite <- !app_comm_cons, !findRouteIn_cons, IH.
Qed.

Lemma findRouteIn_swap pre a mid b post method path :
  ¬ (hits method path a ∧ hits method path b) →
  (hits method path a ∨ hits method path b →
   Forall (λ route, ¬ hits method path route) mid) →
  findRouteIn (pre ++ b :: mid ++ a :: post) method path
  = findRouteIn (pre ++ a :: mid ++ b :: post) method path.
Proof.
  intros Hab Hmid.
  assert (∀ rs rs', findRouteIn rs method path = findRouteIn rs' method path →
            findRouteIn (pre ++ rs) method path = findRouteIn (pre ++ rs') method path)
    as Hpre.
  { intros rs rs' Heq. induction pre as [|first pre IH]; [done|].
    rewrite <- !app_comm_cons, !findRouteIn_cons, IH. done. }
  apply Hpre.
  destruct (decide (Method a = method)) as [Hma|Hma];
    [destruct (matchPath (Path a) path) as [pa|] eqn:Hpa|].
  - assert (hits method path a) as Ha by (split; [done|by rewrite Hpa]).
    assert (¬ hits method path b) as Hb by tauto.
    rewrite (findRouteIn_miss b) by done.
    rewrite (findRouteIn_skip mid) by tauto.
    by rewrite !(findRouteIn_hit a _ _ _ pa).
  - assert (¬ hits method path a) as Ha.
    { intros [_ [ps Hs]]. congruence. }
    rewrite (findRouteIn_miss a) by done.
    destruct (decide (hits method path b)) as [Hb|Hb].
    + destruct Hb as [Hmb [pb Hpb]].
      rewrite (findRouteIn_skip mid) by (apply Hmid; right; split; [done|by rewrite Hpb]).
      by rewrite !(findRouteIn_hit b _ _ _ pb).
    + rewrite (findRouteIn_miss b) by done.
      by rewrite !findRouteIn_drop_miss.
  - assert (¬ hits method path a) as Ha by (by intros [? _]).
    rewrite (findRouteIn_miss a) by done.
    destruct (decide (hits method path b)) as [Hb|Hb].
    + destruct Hb as [Hmb [pb Hpb]].
      rewrite (findRouteIn_skip mid) by (apply Hmid; right; split; [done|by rewrite Hpb]).
      by rewrite !(findRouteIn_hit b _ _ _ pb).
    + rewrite (findRouteIn_miss b) by done.
      by rewrite !findRouteIn_drop_miss.
Qed.

(** C1, amended. Resolution returns the first route in registration order
    whose method is the request's and whose pattern matches the path, with
    the parameters of that match, and no route when there is none; so of
    two routes with the same method and pattern the first registered one
    is dispatched; and exchanging two routes that do not both match the
    request leaves its resolution as it was, provided no route registered
    between the two matches the request whenever one of the two does (as
    when the two are next to each other). *)
Theorem findRoute_first_registered_match r (method path : string) :
  (∀ route params,
     findRoute r method path = Some (route, params) ↔
     ∃ pre post, routes r = pre ++ route :: post ∧
       Forall (λ route', ¬ hits method path route') pre ∧
       Method route = method ∧ matchPath (Path route) path = Some params) ∧
  (findRoute r method path = None ↔
   ∀ route, route ∈ routes r → ¬ hits method path route) ∧
  (∀ pre first mid second post params m,
     routes r = pre ++ first :: mid ++ second :: post →
     Forall (λ route', ¬ hits method path route') pre →
     Method first = method → Method second = method → Path second = Path first →
     matchPath (Path first) path = Some params →
     findRoute r method path = Some (first, params) ∧
     handleRequest r (mkHttpRequest method path) m
     = buildMiddlewareChain r first (bind_params params m)) ∧
  (∀ pre a mid b post,
     routes r = pre ++ a :: mid ++ b :: post →
     ¬ (hits method path a ∧ hits method path b) →
     (hits method path a ∨ hits method path b →
      Forall (λ route, ¬ hits method path route) mid) →
     findRoute (with_routes (pre ++ b :: mid ++ a :: post) r) method path
     = findRoute r method path).
Proof.
  unfold findRoute. split; [|split; [|split]].
  - intros route params. split; [apply findRouteIn_Some|].
    intros (pre & post & -> & Hpre & Hm & Hp). by apply findRouteIn_first.
  - apply findRouteIn_None.
  - intros pre first mid second post params m Hrs Hpre Hm _ _ Hp.
    assert (findRouteIn (routes r) method path = Some (first, params)) as Hfind.
    { rewrite Hrs. by apply findRouteIn_first. }
    split; [done|]. unfold handleRequest, findRoute. simpl. by rewrite Hfind.
  - intros pre a mid b post -> Hab Hmid. simpl. by apply findRouteIn_swap.
Qed.

(** *** No match: 405 or 404 *)

Lemma handleNoMatchIn_some_path rs r path :
  (∃ route, route ∈ rs ∧ is_Some (matchPath (Path route) path)) →
  handleNoMatchIn rs r path = answerMethodNotAllowed r.
Proof.
  induction rs as [|first rs IH]; intros (route & Hin & Hsome).
  - by apply elem_of_nil in Hin.
  - simpl. destruct (matchPath (Path first) path) as [ps|] eqn:Hp; [done|].
    apply IH. apply elem_of_cons in Hin as [->|Hin].
    + rewrite Hp in Hsome. by destruct Hsome.
    + by exists route.
Qed.

Lemma handleNoMatchIn_no_path rs r path :
  (∀ route, route ∈ rs → matchPath (Path route) path = None) →
  handleNoMatchIn rs r path = answerNotFound r.
Proof.
  induction rs as [|first rs IH]; intros Hall; [done|].
  simpl. rewrite (Hall first) by by left.
  apply IH. intros route Hin. apply Hall. by right.
Qed.

(** The default error response on a context whose writer is attached. *)
Lemma Error_response (code : Z) (message : string) (c : Context) (w : ResponseWriter) :
  Writer c = Some w →
  Error code message c =
    (mkContext
       (Some (mkResponseWriter
                (received w ++ [HeaderSet HeaderContentType ContentTypeJSON;
                                WriteHeader code;
                                EncodeJSON (AH [("error", AString message)])])
                (writeErr w)))
       (Request c) (Params c) (statusCode c) true (keys c) (WS c) (SSE c) (pipeline c),
     writeErr w).
Proof.
  intros Hw. unfold Error, JSON, SetHeader, tell. simpl. rewrite Hw. simpl.
  by rewrite <- !app_assoc.
Qed.

Lemma firstStatus_app (calls more : list WriterCall) :
  firstStatus (calls ++ more)
  = match firstStatus calls with Some code => Some code | None => firstStatus more end.
Proof.
  induction calls as [|call calls IH]; [done|].
  destruct call; simpl; done.
Qed.

(** C4. When no route matches the method and the path of a request:
    if the pattern of some registered route matches the path, dispatch
    answers 405 (the installed [MethodNotAllowed] handler runs, or else the
    default error response with status 405 and body error: Method Not
    Allowed is written); if no pattern matches the path, it answers 404 the
    same way (the [NotFound] handler, or else status 404 and body error:
    Not Found). The default response sends the content type, the status and
    the body to the writer and marks the context written. *)
Theorem no_match_answers_405_or_404 r (req : HttpRequest) m :
  findRoute r (Request_Method req) (URL_Path req) = None →
  ((∃ route, route ∈ routes r ∧ is_Some (matchPath (Path route) (URL_Path req))) →
   handleRequest r req m = answerMethodNotAllowed r m ∧
   (methodNotAllowed r = None →
    handleRequest r req m
    = onContext (Error StatusMethodNotAllowed "Method Not Allowed") m)) ∧
  ((∀ route, route ∈ routes r → matchPath (Path route) (URL_Path req) = None) →
   handleRequest r req m = answerNotFound r m ∧
   (notFound r = None →
    handleRequest r req m = onContext (Error StatusNotFound "Not Found") m)) ∧
  (∀ (code : Z) (message : string) (w : ResponseWriter),
     Writer (fst (snd m)) = Some w →
     let '(m', err) := onContext (Error code message) m in
     ∃ w', Writer (fst (snd m')) = Some w' ∧
       received w' = received w ++ [HeaderSet HeaderContentType ContentTypeJSON;
                                    WriteHeader code;
                                    EncodeJSON (AH [("error", AString message)])] ∧
       written (fst (snd m')) = true ∧
       err = writeErr w ∧
       (firstStatus (received w) = None → firstStatus (received w') = Some code)).
Proof.
  intros Hnone. unfold handleRequest. rewrite Hnone. unfold handleNoMatch.
  split; [|split].
  - intros Hsome. rewrite handleNoMatchIn_some_path by done.
    split; [done|]. unfold answerMethodNotAllowed. by intros ->.
  - intros Hall. rewrite handleNoMatchIn_no_path by done.
    split; [done|]. unfold answerNotFound. by intros ->.
  - intros code0 message w Hw. unfold onContext.
    rewrite (Error_response code0 message _ w Hw). simpl.
    eexists. split; [done|]. simpl. repeat split; try done.
    intros Hfirst. by rewrite firstStatus_app, Hfirst.
Qed.

(** *** The middleware chain *)

Lemma wrapDown_take (mws : list (MiddlewareFunc G)) (n : nat) (handler : HandlerFunc G) :
  n ≤ length mws →
  wrapDown mws n handler = foldr (λ mw next, mw next) handler (take n mws).
Proof.
  unfold MiddlewareFunc in *.
  revert handler. induction n as [|i IH]; intros handler Hn; [done|].
  cbn [wrapDown]. destruct (_ !! i) as [mw|] eqn:Hmw.
  - rewrite IH by lia. by rewrite (take_S_r _ _ _ Hmw), foldr_app.
  - apply lookup_ge_None in Hmw. lia.
Qed.

Lemma wrapDown_all (mws : list (MiddlewareFunc G)) (handler : HandlerFunc G) :
  wrapDown mws (length mws) handler = foldr (λ mw next, mw next) handler mws.
Proof. by rewrite wrapDown_take, firstn_all. Qed.

Lemma buildMiddlewareChain_foldr r route :
  buildMiddlewareChain r route
  = foldr (λ mw next, mw next)
      (foldr (λ mw next, mw next) (Handler route) (Middlewares route))
      (middlewares r).
Proof. unfold buildMiddlewareChain. by rewrite !wrapDown_all. Qed.

(** *** Context pooling *)

Lemma reset_clears (c : Context) (w : ResponseWriter) (req : HttpRequest) :
  reset c w req
  = mkContext (Some w) (Some req) ∅ StatusOK false ∅ None None (pipeline c).
Proof. done. Qed.

Lemma acquire_forgets r (w : ResponseWriter) (req : HttpRequest)
    (c : Context) (free : list Context) :
  acquire r w req (c :: free)
  = (mkContext (Some w) (Some req) ∅ StatusOK false ∅ None None (pipeline_set r), free).
Proof. done. Qed.

Lemma acquire_new r (w : ResponseWriter) (req : HttpRequest) :
  acquire r w req []
  = (mkContext (Some w) (Some req) ∅ StatusOK false ∅ None None (pipeline_set r), []).
Proof. done. Qed.

Variable code : Code (Context * G) CtxPtr.

Lemma ServeHTTP_pool r (w : ResponseWriter) (req : HttpRequest) (s : Serving G) :
  ∃ c, pool (ServeHTTP code r w req s) = c :: tail (pool s).
Proof.
  unfold ServeHTTP. destruct s as [[|c0 free] p g]; simpl.
  - destruct (handleRequest _ _ _) as [m err]. by eexists.
  - destruct (handleRequest _ _ _) as [m err]. by eexists.
Qed.

Lemma ServeHTTP_forgets r (w : ResponseWriter) (req : HttpRequest)
    (c c' : Context) (free : list Context) (p : EventPipeline) (g : G) :
  ServeHTTP code r w req (mkServing (c :: free) p g)
  = ServeHTTP code r w req (mkServing (c' :: free) p g).
Proof. unfold ServeHTTP. cbn [pool]. by rewrite !acquire_forgets. Qed.

(** Requests whose handlers have returned. Let request A be served by
    handlers and middlewares that have returned when [ServeHTTP] returns,
    as every handler of [Router.HandlerFunc] has, and then request B with
    the context that A returned to the pool. The context B is served
    with has no key in its store ([Get] finds nothing), no path
    parameter, the default status and [written] false; and the whole
    service of B is the same whatever A left in that context. A handler
    that [middleware.Timeout] left running is outside this statement:
    see [DetachedTheory]. *)
Theorem pooled_context_isolated r (wA wB : ResponseWriter) (reqA reqB : HttpRequest)
    (s0 : Serving G) :
  let sA := ServeHTTP code r wA reqA s0 in
  ∃ cA free,
    pool sA = cA :: free ∧
    (let cB := fst (acquire r wB reqB (pool sA)) in
     (∀ key, Get key cB = None) ∧
     Params cB = ∅ ∧ (∀ key, Param key cB = EmptyString) ∧
     statusCode cB = StatusOK ∧ Written cB = false ∧
     Writer cB = Some wB ∧ Request cB = Some reqB) ∧
    (∀ c' free', fst (acquire r wB reqB (c' :: free'))
                 = fst (acquire r wB reqB (pool sA))) ∧
    (∀ c', ServeHTTP code r wB reqB sA
           = ServeHTTP code r wB reqB (mkServing (c' :: free) (pipe sA) (rest sA))).
Proof.
  intros sA. destruct (ServeHTTP_pool r wA reqA s0) as [cA HcA].
  fold sA in HcA. exists cA, (tail (pool s0)). split; [done|].
  rewrite HcA, acquire_forgets. simpl. split; [|split].
  - by repeat split.
  - done.
  - intros c'. destruct sA as [poolA pA gA]. simpl in *. subst poolA.
    apply ServeHTTP_forgets.
Qed.

End Resolution.

(** C1 fails for two routes with a third one between them that matches
    a request of the first. *)
Lemma reorder_counterexample :
  ¬ reorder_keeps_resolution threeRoutes [] routeGetA [routeGetAny] routePostA [].
Proof.
  unfold reorder_keeps_resolution. intros H.
  assert (∀ method path, ¬ (hits method path routeGetA ∧ hits method path routePostA))
    as Hnever.
  { intros method path [[Hget _] [Hpost _]]. simpl in Hget, Hpost.
    rewrite <- Hget in Hpost. vm_compute in Hpost. discriminate. }
  specialize (H eq_refl Hnever MethodGet "/a").
  apply (f_equal (fmap (M := option) (λ found, Path (fst found)))) in H.
  vm_compute in H. discriminate.
Qed.

Lemma findRoute_first_registered_witness :
  let dup := mkRoute MethodGet "/a" (λ m, (m, Some "second")) [] EmptyString EmptyString [] None None in
  let r := mkRouter [routeGetA; routeGetAny; dup] [] None None true in
  let m : MState unit := (NewEventPipeline, (zeroContext, tt)) in
    findRoute r MethodGet "/a" = Some (routeGetA, ∅) ∧
    handleRequest r (mkHttpRequest MethodGet "/a") m
    = buildMiddlewareChain r routeGetA (bind_params ∅ m).
Proof.
  intros dup r m.
  apply (proj1 (proj2 (proj2 (findRoute_first_registered_match r MethodGet "/a")))
           [] routeGetA [routeGetAny] dup [] ∅ m).
  - reflexivity.
  - constructor.
  - reflexivity.
  - reflexivity.
  - reflexivity.
  - vm_compute. reflexivity.
Defined.

Lemma no_match_answers_405_witness :
  let req := mkHttpRequest MethodDelete "/items" in
  let m : MState unit := (NewEventPipeline, (NewContext (mkResponseWriter [] None) req, tt)) in
  handleRequest itemsRouter req m
  = onContext (Error StatusMethodNotAllowed "Method Not Allowed") m.
Proof.
  intros req m.
  assert (findRoute itemsRouter (Request_Method req) (URL_Path req) = None) as Hnone.
  { vm_compute. reflexivity. }
  apply (proj1 (no_match_answers_405_or_404 itemsRouter req m Hnone)).
  - exists (mkRoute MethodGet "/items" okHandler [] EmptyString EmptyString [] None None).
    split; [left|vm_compute; by eexists].
  - reflexivity.
Defined.

Example ServeHTTP_delete_items_405 :
  let req := mkHttpRequest MethodDelete "/items" in
  let s := ServeHTTP EventsSpec.quietCode itemsRouter
             (mkResponseWriter [] None) req (mkServing [] NewEventPipeline tt) in
  (Writer <$> pool s)
  = [Some (mkResponseWriter
             [HeaderSet HeaderContentType ContentTypeJSON;
              WriteHeader 405;
              EncodeJSON (AH [("error", AString "Method Not Allowed")])]
             None)].
Proof. vm_compute. reflexivity. Qed.

Example ServeHTTP_unknown_path_404 :
  let req := mkHttpRequest MethodGet "/nothing" in
  let s := ServeHTTP EventsSpec.quietCode itemsRouter
             (mkResponseWriter [] None) req (mkServing [] NewEventPipeline tt) in
  (Writer <$> pool s)
  = [Some (mkResponseWriter
             [HeaderSet HeaderContentType ContentTypeJSON;
              WriteHeader 404;
              EncodeJSON (AH [("error", AString "Not Found")])]
             None)].
Proof. vm_compute. reflexivity. Qed.

(** *** Middlewares that leave marks *)

Lemma notes_notes marks marks' m : notes marks' (notes marks m) = notes (marks ++ marks') m.
Proof. unfold notes. simpl. by rewrite app_assoc. Qed.

Lemma tracing_chain (labels : list nat) (handler : HandlerFunc (list Mark)) m :
  foldr (λ mw next, mw next) handler (tracing <$> labels) m
  = let '(m', err) := handler (notes (Enter <$> labels) m) in
    (notes (Exit <$> rev labels) m', err).
Proof.
  revert m. induction labels as [|label labels IH]; intros m.
  - simpl. destruct m as [p [c g]]. unfold notes. simpl. rewrite app_nil_r.
    destruct (handler _) as [[p' [c' g']] err]. simpl. by rewrite app_nil_r.
  - simpl. unfold tracing at 1. rewrite IH, notes_notes. simpl.
    destruct (handler _) as [m' err]. rewrite notes_notes.
    by rewrite fmap_app.
Qed.

(** C2. The chain built for a route is the route handler wrapped by the
    route's middlewares, the last one innermost and the first one
    outermost, and that wrapped again by the global middlewares in the
    same way. So with middlewares that mark their entry and their exit
    around the call of the next handler, every global middleware is
    entered before every route middleware, the handler runs after all
    entries, and every global middleware exits after every route
    middleware. *)
Theorem middleware_chain_nesting :
  (∀ (G : Type) (r : Router G) (route : Route G),
     buildMiddlewareChain r route
     = foldr (λ mw next, mw next)
         (foldr (λ mw next, mw next) (Handler route) (Middlewares route))
         (middlewares r)) ∧
  (∀ (globals scoped : list nat) (handler : HandlerFunc (list Mark))
     (r : Router (list Mark)) (route : Route (list Mark)) (m : MState (list Mark)),
     middlewares r = tracing <$> globals →
     Middlewares route = tracing <$> scoped →
     Handler route = handler →
     buildMiddlewareChain r route m
     = let '(m', err) := handler (notes ((Enter <$> globals) ++ (Enter <$> scoped)) m) in
       (notes ((Exit <$> rev scoped) ++ (Exit <$> rev globals)) m', err)).
Proof.
  split; [intros; apply buildMiddlewareChain_foldr|].
  intros globals scoped handler r route m Hg Hs Hh.
  rewrite buildMiddlewareChain_foldr, Hg, Hs, Hh, tracing_chain, tracing_chain.
  rewrite notes_notes. destruct (handler _) as [m' err]. by rewrite notes_notes.
Qed.

Lemma middleware_chain_nesting_witness :
  let handler : HandlerFunc (list Mark) := λ m, (notes [Enter 0] m, None) in
  let r := Use [tracing 1; tracing 2] NewRouter in
  let route := mkRoute MethodGet "/" handler [tracing 3; tracing 4] EmptyString EmptyString [] None None in
  snd (snd (fst (buildMiddlewareChain r route (NewEventPipeline, (zeroContext, [])))))
  = [Enter 1; Enter 2; Enter 3; Enter 4; Enter 0; Exit 4; Exit 3; Exit 2; Exit 1].
Proof.
  intros handler r route.
  rewrite (proj2 middleware_chain_nesting [1; 2] [3; 4] handler r route
             (NewEventPipeline, (zeroContext, [])) eq_refl eq_refl eq_refl).
  reflexivity.
Defined.

(** *** Two requests on one pooled context *)

Example second_request_finds_no_key :
  let quiet := EventsSpec.quietCode in
  let w := mkResponseWriter [] None in
  let sA := ServeHTTP quiet sessionRouter w (mkHttpRequest MethodPost "/login")
              (mkServing [] NewEventPipeline []) in
  let sB := ServeHTTP quiet sessionRouter w (mkHttpRequest MethodGet "/whoami") sA in
  (Get "user" <$> pool sA) = [Some (AString "alice")] ∧
  length (pool sB) = 1 ∧
  rest sB = [false].
Proof. vm_compute. repeat split; reflexivity. Qed.

End RouterTheory.

(** ** A handler left running by [middleware.Timeout] *)

Module DetachedTheory.
Import Ctx Events Router RouterSpec Middleware Detached DetachedSpec.

Section Objects.
Context {G : Type}.
Variable code : Code (Context * G) CtxPtr.
Implicit Types (r : Router G) (s : Shared G).

Lemma ServeHTTP_dispatch r (w : ResponseWriter) (req : HttpRequest) (s : Serving G) :
  ServeHTTP code r w req s
  = let '(c, free) := acquire r w req (pool s) in
    let m := dispatch code r req (pipe s, (c, rest s)) in
    mkServing (poolPut (fst (snd m)) free) (fst m) (snd (snd m)).
Proof.
  unfold ServeHTTP, dispatch. destruct (acquire _ _ _ _) as [c free].
  by destruct (handleRequest _ _ _) as [m err].
Qed.

Lemma at_insert_same (objs : list Context) (a : nat) (c : Context) :
  a < length objs → at_ (<[a := c]> objs) a = c.
Proof. intros Ha. unfold at_. by rewrite list_lookup_insert_eq. Qed.

Lemma at_insert_other (objs : list Context) (a b : nat) (c : Context) :
  a ≠ b → at_ (<[a := c]> objs) b = at_ objs b.
Proof. intros Hne. unfold at_. by rewrite list_lookup_insert_ne. Qed.

(** With no goroutine left running, serving at addresses is [ServeHTTP]
    on the free contexts. *)
Lemma ServeHTTP_at_view r (w : ResponseWriter) (req : HttpRequest) s :
  well_formed s →
  view (fst (ServeHTTP_at code r w req None s)) = ServeHTTP code r w req (view s) ∧
  well_formed (fst (ServeHTTP_at code r w req None s)).
Proof.
  destruct s as [objs free p g]. intros [Hdup Hin]. cbn [freed objects] in *.
  rewrite ServeHTTP_dispatch. unfold ServeHTTP_at, view, acquire.
  cbn [freed objects pipeOf restOf pool pipe rest].
  destruct free as [|a free']; cbn [poolGetAt poolGet fmap list_fmap].
  - assert (at_ (objs ++ [zeroContext]) (length objs) = zeroContext) as ->.
    { unfold at_. by rewrite lookup_app_r, Nat.sub_diag by lia. }
    set (m := dispatch _ _ _ _). cbn [fst snd freed objects pipeOf restOf fmap list_fmap].
    split.
    + unfold poolPut. f_equal. f_equal.
      apply at_insert_same. rewrite length_app. simpl. lia.
    + split; cbn [freed objects].
      * apply NoDup_singleton.
      * intros a ->%list_elem_of_singleton. rewrite length_insert, length_app. simpl. lia.
  - apply NoDup_cons in Hdup as [Hnotin Hdup].
    set (m := dispatch _ _ _ _). cbn [fst snd freed objects pipeOf restOf fmap list_fmap].
    split.
    + unfold poolPut. f_equal. f_equal.
      * apply at_insert_same, Hin. set_solver.
      * apply list_fmap_ext. intros i b Hb. apply at_insert_other.
        intros ->. apply Hnotin. by eapply list_elem_of_lookup_2.
    + split; cbn [freed objects].
      * by apply NoDup_cons.
      * intros b Hb. rewrite length_insert. by apply Hin.
Qed.

(** A goroutine that holds the address being served runs on the context
    of the request, and leaves the other objects as they are. *)
Lemma scheduled_same (g : Goroutine G) (objs : list Context) (m : MState G) :
  scheduled g (holds g) objs m = (objs, fst (calls g m)).
Proof. unfold scheduled. by rewrite decide_True. Qed.

End Objects.

(** C3. The isolation of two requests on one pooled context fails for a
    request whose handler [middleware.Timeout] left running. Request A
    is a login under [Timeout]; the timer comes first, A is answered 504
    and its context, with an empty store, goes back to the pool while
    the goroutine that calls the handler still holds it. Request B is
    given the same context; [reset] clears it; the goroutine then stores
    A's key in it, and the handler of B finds the key: [Get] answers
    found, where the claim wants not-found. Without the goroutine B
    finds nothing. *)
Theorem detached_handler_reaches_next_request :
  let quiet := EventsSpec.quietCode in
  let w := mkResponseWriter [] None in
  let login := mkHttpRequest MethodPost "/login" in
  let whoami := mkHttpRequest MethodGet "/whoami" in
  let s0 : Shared (list bool) := mkShared [] [] NewEventPipeline [] in
  let A := ServeHTTP_at quiet timeoutRouter w login None s0 in
  let g := mkGoroutine (snd A) storeUser in
  let B := ServeHTTP_at quiet timeoutRouter w whoami (Some g) (fst A) in
  (∃ route params,
     findRoute timeoutRouter MethodPost "/login" = Some (route, params) ∧
     buildMiddlewareChain timeoutRouter route = Timeout 1000000000 TimerFirst storeUser) ∧
  detached TimerFirst storeUser = Some (calls g) ∧
  (Writer (at_ (objects (fst A)) (snd A)) ≫= λ w, firstStatus (received w))
  = Some StatusGatewayTimeout ∧
  freed (fst A) = [snd A] ∧
  Get "user" (at_ (objects (fst A)) (snd A)) = None ∧
  holds g = snd B ∧
  Get "user" (fst (acquire timeoutRouter w whoami (pool (view (fst A))))) = None ∧
  restOf (fst B) = [true] ∧
  Get "user" (at_ (objects (fst B)) (snd B)) = Some (AString "alice") ∧
  restOf (fst (ServeHTTP_at quiet timeoutRouter w whoami None (fst A))) = [false].
Proof.
  intros quiet w login whoami s0 A g B.
  split.
  { eexists _, _. split; [vm_compute; reflexivity|]. reflexivity. }
  split; [reflexivity|].
  repeat split; vm_compute; reflexivity.
Qed.

End DetachedTheory.

(** * Further properties of the code *)

(** ** More on path matching *)

Module MatcherMore.
Import GoStrings Matcher MatcherSpec MoreSpec MatcherTheory.

Lemma Split_cons s sep : ∃ piece pieces, Split s sep = piece :: pieces.
Proof.
  induction s as [|a s IH]; simpl; [by eexists _, _|].
  destruct (Ascii.eqb a sep); [by eexists _, _|].
  destruct IH as (piece & pieces & ->). by eexists _, _.
Qed.

Lemma concat_cons sep piece pieces x :
  String.concat sep ((String x piece) :: pieces)
  = String x (String.concat sep (piece :: pieces)).
Proof. by destruct pieces. Qed.

Lemma Join_Split s sep : Join (Split s sep) (String sep EmptyString) = s.
Proof.
  unfold Join. induction s as [|a s IH]; [done|]. simpl.
  destruct (Ascii.eqb_spec a sep) as [->|Hne].
  - destruct (Split_cons s sep) as (piece & pieces & Hs).
    rewrite Hs in *. simpl. simpl in IH. by rewrite IH.
  - destruct (Split_cons s sep) as (piece & pieces & Hs).
    rewrite Hs in *. by rewrite concat_cons, IH.
Qed.

Lemma Split_no_sep s sep part : part ∈ Split s sep → occurs sep part = false.
Proof.
  revert part. induction s as [|a s IH]; intros part; simpl.
  - by intros ->%list_elem_of_singleton.
  - destruct (Ascii.eqb a sep) eqn:Ha.
    + intros [->|Hin]%elem_of_cons; [done|by apply IH].
    + destruct (Split_cons s sep) as (piece & pieces & Hs). rewrite Hs in *.
      intros [->|Hin]%elem_of_cons.
      * simpl. rewrite Ha. simpl. apply IH. by left.
      * apply IH. by right.
Qed.

(** X1. The parts of a path, joined by slashes again, are the path
    without its leading and trailing slashes; there is always at least
    one part, and no part contains a slash. *)
Theorem splitPath_join_round_trip (p : string) :
  Join (splitPath p) "/" = Trim p "/" ∧
  0 < length (splitPath p) ∧
  ∀ part, part ∈ splitPath p → occurs "/" part = false.
Proof.
  unfold splitPath. split; [apply Join_Split|]. split.
  - destruct (Split_cons (Trim p "/") "/") as (piece & pieces & ->). simpl. lia.
  - intros part. apply Split_no_sep.
Qed.

(** X2. For a path that is not the pattern string itself, [matchPath]
    returns true exactly when the part counts fit (equal without a
    wildcard, at least the positional parts with one) and every positional
    pattern part is a parameter or equals the path part at its position. *)
Theorem match_iff_parts_fit (pattern path : string) :
  pattern ≠ path →
  is_Some (matchPath pattern path) ↔ parts_fit pattern path.
Proof.
  intros Hne. rewrite matchPath_slow by done. unfold parts_fit. simpl.
  destruct (validatePartCounts _ _ _) eqn:Hcount; simpl.
  - split.
    + intros Hsome. split; [done|]. intros i part Hi.
      destruct (matchParts _ 0 _ ∅) as [out|] eqn:Hrun; [|by destruct Hsome].
      destruct (matchParts_positions _ _ _ _ _ Hrun i part Hi) as (x & Hx & Hlit).
      destruct (isParam part); [by left|right]. by rewrite Hlit.
    + intros [_ Hall].
      destruct (matchParts_succeeds (positionalParts pattern) 0 (splitPath path) ∅)
        as [out Hout]; [done| |].
      * unfold validatePartCounts in Hcount.
        destruct (fst (checkWildcard (splitPath pattern)));
          apply bool_decide_eq_true_1 in Hcount; lia.
      * rewrite Hout. by destruct (fst (checkWildcard (splitPath pattern))).
  - split; [by intros []|by intros [? _]].
Qed.

Lemma match_iff_parts_fit_witness : is_Some (matchPath "/users/:id" "/users/42").
Proof.
  apply (match_iff_parts_fit "/users/:id" "/users/42"); [discriminate|].
  split; [reflexivity|].
  intros i part Hi. vm_compute in Hi.
  destruct i as [|[|i]]; [|left|discriminate]; injection Hi as <-.
  - right. reflexivity.
  - reflexivity.
Defined.

Lemma wildcard_captures_remaining_witness :
  ∃ params, matchPath "/static/*filepath" "/static/css/app.css" = Some params ∧
    params !! "filepath" = Some "css/app.css".
Proof.
  destruct (wildcard_captures_remaining "/static/*filepath" "/static/css/app.css" "filepath")
    as (params & Hmatch & Hbound & _).
  - reflexivity.
  - vm_compute. lia.
  - intros i part Hi. vm_compute in Hi.
    destruct i as [|i]; [|discriminate]. injection Hi as <-. right. reflexivity.
  - discriminate.
  - exists params. split; [exact Hmatch|exact Hbound].
Defined.

Lemma matchParts_source pp i xs ps out k v :
  matchParts pp i xs ps = Some out → out !! k = Some v →
  ps !! k = Some v ∨
  ∃ j part, pp !! j = Some part ∧ isParam part = true ∧ paramName part = k ∧
            xs !! (i + j) = Some v.
Proof.
  revert i ps. induction pp as [|first pp IH]; intros i ps Hrun Hout.
  - simpl in Hrun. injection Hrun as ->. by left.
  - simpl in Hrun. destruct (xs !! i) as [x|] eqn:Hx; [|done].
    assert (∀ ps', matchParts pp (S i) xs ps' = Some out →
              ps' !! k = Some v ∨
              ∃ j part, (first :: pp) !! j = Some part ∧ isParam part = true ∧
                        paramName part = k ∧ xs !! (i + j) = Some v) as Hrest.
    { intros ps' Hrun'. destruct (IH _ _ Hrun' Hout) as [Hps|(j & part & Hj & ? & ? & Hv)].
      - by left.
      - right. exists (S j), part. replace (i + S j) with (S i + j) by lia. done. }
    destruct (HasPrefix first ":") eqn:Hparam.
    + destruct (Hrest _ Hrun) as [Hps|Hex]; [|by right].
      apply lookup_insert_Some in Hps as [[<- <-]|[_ Hps]]; [|by left].
      right. exists 0, first. rewrite Nat.add_0_r. done.
    + case_bool_decide; [|done]. by apply Hrest.
Qed.

(** X4. Every entry of the parameters [matchPath] returns comes from the
    pattern: its key is the name of the wildcard, with the joined rest of
    the path as value, or the name of a colon part, with the path part at
    that position as value, which contains no slash. *)
Theorem params_come_from_pattern (pattern path : string)
    (params : gmap string string) (k v : string) :
  matchPath pattern path = Some params → params !! k = Some v →
  (checkWildcard (splitPath pattern) = (true, k) ∧
   v = Join (drop (length (positionalParts pattern)) (splitPath path)) "/") ∨
  (∃ j part, positionalParts pattern !! j = Some part ∧ isParam part = true ∧
             paramName part = k ∧ splitPath path !! j = Some v ∧
             occurs "/" v = false).
Proof.
  intros Hmatch Hkv.
  destruct (decide (pattern = path)) as [<-|Hne].
  { rewrite matchPath_fast in Hmatch. injection Hmatch as <-.
    by rewrite lookup_empty in Hkv. }
  rewrite matchPath_slow in Hmatch by done. simpl in Hmatch.
  destruct (negb _); [done|].
  destruct (matchParts _ 0 _ ∅) as [out|] eqn:Hrun; [|done].
  assert (out !! k = Some v →
          ∃ j part, positionalParts pattern !! j = Some part ∧ isParam part = true ∧
             paramName part = k ∧ splitPath path !! j = Some v ∧
             occurs "/" v = false) as Hpos.
  { intros Hout. destruct (matchParts_source _ _ _ _ _ _ _ Hrun Hout)
      as [Hempty|(j & part & Hj & Hp & Hn & Hv)]; [by rewrite lookup_empty in Hempty|].
    exists j, part. repeat split; try done.
    apply (Split_no_sep (Trim path "/") "/").
    by apply list_elem_of_lookup_2 in Hv. }
  destruct (checkWildcard (splitPath pattern)) as [[] name] eqn:Hw; simpl in *.
  - injection Hmatch as <-.
    apply lookup_insert_Some in Hkv as [[<- <-]|[_ Hkv]]; [by left|right; by apply Hpos].
  - injection Hmatch as <-. right. by apply Hpos.
Qed.

Lemma params_come_from_pattern_witness :
  ∃ j part, positionalParts "/users/:id" !! j = Some part ∧
            splitPath "/users/42" !! j = Some "42" ∧ occurs "/" "42" = false.
Proof.
  assert (matchPath "/users/:id" "/users/42" = Some {[ "id" := "42" ]}) as Hmatch.
  { vm_compute. reflexivity. }
  destruct (params_come_from_pattern _ _ _ "id" "42" Hmatch ltac:(reflexivity))
    as [[Hw _]|(j & part & Hj & _ & _ & Hv & Hno)].
  - vm_compute in Hw. discriminate.
  - exists j, part. split; [exact Hj|]. split; [exact Hv|exact Hno].
Defined.

Lemma TrimRight_app_sep s c :
  TrimRight (s ++ String c EmptyString) c = TrimRight s c.
Proof.
  induction s as [|a s IH]; simpl.
  - by rewrite Ascii.eqb_refl.
  - by rewrite IH.
Qed.

Lemma Trim_app_sep s c : Trim (s ++ String c EmptyString) c = Trim s c.
Proof.
  unfold Trim. induction s as [|a s IH]; simpl.
  - by rewrite Ascii.eqb_refl.
  - destruct (Ascii.eqb a c); [done|].
    change (String a (s ++ String c EmptyString))
      with ((String a s) ++ String c EmptyString)%string.
    apply TrimRight_app_sep.
Qed.

(** X5. A slash added at the end or at the start of the request path
    does not change the answer of [matchPath], as long as neither of the
    two paths is the pattern string itself. *)
Theorem match_ignores_outer_slash (pattern path : string) :
  pattern ≠ path →
  (pattern ≠ (path ++ "/")%string →
   matchPath pattern (path ++ "/") = matchPath pattern path) ∧
  (pattern ≠ String "/" path →
   matchPath pattern (String "/" path) = matchPath pattern path).
Proof.
  intros Hne. split; intros Hne'; rewrite !matchPath_slow by done; unfold splitPath.
  - by rewrite Trim_app_sep.
  - done.
Qed.

Lemma match_ignores_outer_slash_witness :
  matchPath "/users/:id" "/users/42/" = Some {[ "id" := "42" ]}.
Proof.
  refine (eq_trans (proj1 (match_ignores_outer_slash "/users/:id" "/users/42"
                             ltac:(discriminate)) ltac:(discriminate)) _).
  vm_compute. reflexivity.
Defined.

End MatcherMore.

(** ** More on the room hub *)

Module HubMore.
Import Hub HubSpec HubTheory.

Lemma members_empty_iff room h :
  no_empty_room h → members room h = ∅ ↔ rooms h !! room = None.
Proof.
  intros Hinv. unfold members. destruct (rooms h !! room) as [s|] eqn:Hr; simpl.
  - split; [|done]. intros ->. by destruct (Hinv room ∅ Hr).
  - done.
Qed.

(** X6. After any operations on a new hub no room without members is an
    entry of the table; so the count of a room is zero, and its list of
    ids empty, exactly when the room is no entry. *)
Theorem hub_has_no_empty_room (ops : list HubOp) (room : string) :
  let h := run ops newBaseHub in
  no_empty_room h ∧
  (roomCount room h = 0 ↔ rooms h !! room = None) ∧
  (getRoomClientIDs room h = [] ↔ rooms h !! room = None).
Proof.
  intros h. pose proof (no_empty_room_run ops) as Hinv. fold h in Hinv.
  split; [done|]. rewrite roomCount_members, getRoomClientIDs_members.
  rewrite <- (members_empty_iff room h Hinv). split.
  - split; [|by intros ->]. intros Hz. emptied Hz. done.
  - split; [|by intros ->]. intros He. apply elements_empty_inv in He.
    by apply leibniz_equiv in He.
Qed.

(** X7. A join of a client that is no member raises the count of the
    room by one, and a leave of a member lowers it by one; a join of a
    member and a leave of a non-member leave the count as it is. *)
Theorem join_leave_count (c r : string) (h : BaseHub) :
  (c ∉ members r h → roomCount r (addToRoom c r h) = S (roomCount r h)) ∧
  (c ∈ members r h → roomCount r (addToRoom c r h) = roomCount r h) ∧
  (c ∈ members r h → S (roomCount r (removeFromRoom c r h)) = roomCount r h) ∧
  (c ∉ members r h → roomCount r (removeFromRoom c r h) = roomCount r h).
Proof.
  rewrite !roomCount_members, members_addToRoom, members_removeFromRoom.
  rewrite !decide_True by done. repeat split; intros Hc.
  - rewrite size_union by set_solver. by rewrite size_singleton.
  - f_equal. set_solver.
  - rewrite size_difference by set_solver. rewrite size_singleton.
    assert (size (members r h) ≠ 0); [|lia].
    intros Hz. emptied Hz. rewrite Hz in Hc. set_solver.
  - f_equal. set_solver.
Qed.

Lemma join_leave_count_witness :
  roomCount "lobby" (addToRoom "c1" "lobby" newBaseHub) = 1 ∧
  roomCount "lobby" (removeFromRoom "c1" "lobby" (addToRoom "c1" "lobby" newBaseHub)) = 0.
Proof.
  split.
  - apply (proj1 (join_leave_count "c1" "lobby" newBaseHub)).
    vm_compute. discriminate.
  - assert ("c1" ∈ members "lobby" (addToRoom "c1" "lobby" newBaseHub)) as Hin.
    { vm_compute. reflexivity. }
    pose proof (proj1 (proj2 (proj2
      (join_leave_count "c1" "lobby" (addToRoom "c1" "lobby" newBaseHub)))) Hin) as Hs.
    vm_compute in Hs. vm_compute. lia.
Defined.

(** X8. A join or a leave in one room changes neither the members of
    another room (its list of ids is the same up to the order, which the
    iteration over the map does not fix) nor, in the same room, the
    membership of another client. *)
Theorem join_leave_frame (c r : string) (h : BaseHub) :
  (∀ r', r ≠ r' →
     members r' (addToRoom c r h) = members r' h ∧
     members r' (removeFromRoom c r h) = members r' h ∧
     getRoomClientIDs r' (addToRoom c r h) ≡ₚ getRoomClientIDs r' h ∧
     getRoomClientIDs r' (removeFromRoom c r h) ≡ₚ getRoomClientIDs r' h ∧
     roomCount r' (addToRoom c r h) = roomCount r' h ∧
     roomCount r' (removeFromRoom c r h) = roomCount r' h) ∧
  (∀ c', c ≠ c' →
     (c' ∈ getRoomClientIDs r (addToRoom c r h) ↔ c' ∈ getRoomClientIDs r h) ∧
     (c' ∈ getRoomClientIDs r (removeFromRoom c r h) ↔ c' ∈ getRoomClientIDs r h)).
Proof.
  split.
  - intros r' Hne. rewrite !getRoomClientIDs_members, !roomCount_members.
    rewrite members_addToRoom, members_removeFromRoom.
    by rewrite !decide_False by done.
  - intros c' Hne. rewrite !getRoomClientIDs_members, !elem_of_elements.
    rewrite members_addToRoom, members_removeFromRoom.
    rewrite !decide_True by done. set_solver.
Qed.

Lemma join_leave_frame_witness :
  getRoomClientIDs "lobby" (addToRoom "c1" "chat" (addToRoom "c2" "lobby" newBaseHub))
  ≡ₚ getRoomClientIDs "lobby" (addToRoom "c2" "lobby" newBaseHub).
Proof.
  apply (proj1 (join_leave_frame "c1" "chat" (addToRoom "c2" "lobby" newBaseHub))).
  discriminate.
Defined.

(** X9. After [removeFromAllRooms] the client is a member of no room,
    every other client is a member of exactly the rooms it was a member
    of, and no room without members is left. *)
Theorem leaveAll_leaves_every_room (c : string) (h : BaseHub) :
  (∀ room, c ∉ getRoomClientIDs room (removeFromAllRooms c h)) ∧
  (∀ room c', c' ≠ c →
     c' ∈ getRoomClientIDs room (removeFromAllRooms c h)
     ↔ c' ∈ getRoomClientIDs room h) ∧
  (∀ room, roomCount room (removeFromAllRooms c h) = size (members room h ∖ {[c]})) ∧
  no_empty_room (removeFromAllRooms c h).
Proof.
  repeat split.
  - intros room. rewrite getRoomClientIDs_members, elem_of_elements.
    rewrite members_removeFromAllRooms. set_solver.
  - rewrite !getRoomClientIDs_members, !elem_of_elements.
    rewrite members_removeFromAllRooms. set_solver.
  - rewrite !getRoomClientIDs_members, !elem_of_elements.
    rewrite members_removeFromAllRooms. set_solver.
  - intros room. by rewrite roomCount_members, members_removeFromAllRooms.
  - intros room clients. unfold removeFromAllRooms. simpl. rewrite lookup_omap.
    destruct (rooms h !! room) as [s|]; simpl; [|done].
    destruct (decide (size (s ∖ {[c]}) = 0)) as [Hz|Hz]; simpl; [done|].
    intros [= <-] He. apply Hz. rewrite He. apply size_empty.
Qed.

(** X10. On a hub without empty rooms, a join of a client that is no
    member of the room followed by its leave gives back the same hub. *)
Theorem join_then_leave_restores (c r : string) (h : BaseHub) :
  no_empty_room h → c ∉ members r h →
  removeFromRoom c r (addToRoom c r h) = h.
Proof.
  unfold members, no_empty_room. destruct h as [rs b]. simpl.
  intros Hinv Hc. unfold addToRoom, removeFromRoom. simpl.
  destruct (rs !! r) as [s|] eqn:Hr; simpl.
  - rewrite Hr. simpl. rewrite lookup_insert_eq.
    assert (({[c]} ∪ s) ∖ {[c]} = s) as -> by set_solver.
    destruct (decide (size s = 0)) as [Hz|Hz].
    + emptied Hz. by destruct (Hinv r s Hr).
    + f_equal. rewrite insert_insert_eq. by apply insert_id.
  - rewrite lookup_insert_eq. simpl. rewrite lookup_insert_eq.
    assert (({[c]} ∪ ∅) ∖ {[c]} = (∅ : gset string)) as -> by set_solver.
    rewrite decide_True by apply size_empty. f_equal.
    rewrite !delete_insert_eq. by apply delete_id.
Qed.

Lemma join_then_leave_restores_witness :
  let h := addToRoom "c2" "lobby" newBaseHub in
  removeFromRoom "c1" "lobby" (addToRoom "c1" "lobby" h) = h.
Proof.
  intros h. apply join_then_leave_restores.
  - apply (no_empty_room_run [Join "c2" "lobby"]).
  - vm_compute. discriminate.
Defined.

End HubMore.

(** ** More on the event pipelines *)

Module EventsMore.
Import Events EventsSpec MoreSpec EventsTheory.

Lemma registerAll_snoc regs reg p :
  registerAll (regs ++ [reg]) p = On (fst reg) (snd reg) (registerAll regs p).
Proof. unfold registerAll. by rewrite fold_left_app. Qed.

Lemma registeredFor_snoc event regs reg :
  registeredFor event (regs ++ [reg])
  = registeredFor event regs ++ (if decide (fst reg = event) then [snd reg] else []).
Proof.
  unfold registeredFor. rewrite filter_app, fmap_app. f_equal.
  rewrite filter_cons, filter_nil. by case_decide.
Qed.

Lemma registerAll_lookup regs p event :
  handlers (registerAll regs p) !!! event
  = handlers p !!! event ++ registeredFor event regs.
Proof.
  revert event. induction regs as [|reg regs IH] using rev_ind; intros event.
  - unfold registeredFor. simpl. by rewrite app_nil_r.
  - rewrite registerAll_snoc, registeredFor_snoc. case_decide as Hk.
    + subst event. by rewrite On_lookup, IH, app_assoc.
    + rewrite On_lookup_ne by done. by rewrite IH, app_nil_r.
Qed.

Section Emission.
Context {St Ptr : Type}.
Variable code : Code St Ptr.

(** X11. Whatever kinds are registered in between, the handlers of a
    kind stay in the order of their registration: after a sequence of
    [On] calls on a new pipeline, an emission with a context that is not
    nil calls exactly the handlers registered for its kind, in
    registration order, and [HasHandlers] tells whether there is one. *)
Theorem registration_order_kept (regs : list (EventType * EventHandler))
    (event : EventType) (c : Ptr) (st : St) :
  let p := registerAll regs NewEventPipeline in
  handlers p !!! event = registeredFor event regs ∧
  snd (Emit code event (Some c) (p, st)) = registeredFor event regs ∧
  (HasHandlers event p = true ↔ registeredFor event regs ≠ []).
Proof.
  intros p.
  assert (handlers p !!! event = registeredFor event regs) as Hp.
  { unfold p. rewrite registerAll_lookup. simpl. by rewrite lookup_total_empty. }
  split; [done|]. split.
  - unfold Emit. simpl. by rewrite emitLoop_some, Hp.
  - unfold HasHandlers. rewrite Hp, bool_decide_eq_true.
    destruct (registeredFor event regs); simpl; [split; [lia|done]|split; [done|lia]].
Qed.

(** X12. [Off] removes every handler of its kind and no handler of
    another kind: afterwards [HasHandlers] is false for the kind and an
    emission of it calls nothing and changes nothing, while the other
    kinds keep their handlers; [Clear] does so for all kinds. *)
Theorem Off_and_Clear (event : EventType) (p : EventPipeline) (ctx : option Ptr) (st : St) :
  HasHandlers event (Off event p) = false ∧
  Emit code event ctx (Off event p, st) = ((Off event p, st), []) ∧
  (∀ event', event' ≠ event →
     handlers (Off event p) !!! event' = handlers p !!! event') ∧
  (∀ event', HasHandlers event' (Clear p) = false ∧
             Emit code event' ctx (Clear p, st) = ((Clear p, st), [])).
Proof.
  assert (handlers (Off event p) !!! event = []) as Hoff.
  { unfold Off. simpl. by rewrite lookup_total_delete_eq. }
  split; [|split; [|split]].
  - unfold HasHandlers. rewrite Hoff. by apply bool_decide_eq_false_2; simpl; lia.
  - unfold Emit. cbn [fst]. by rewrite Hoff.
  - intros event' Hne. unfold Off. simpl. by rewrite lookup_total_delete_ne.
  - intros event'. split; [done|]. unfold Emit, Clear. cbn [fst handlers].
    by rewrite lookup_total_empty.
Qed.

(** X13. With a context that is not nil, [EmitAsync] starts one goroutine
    for every handler registered for the kind when it is called, each on
    the same context, in registration order. *)
Theorem EmitAsync_starts_every_handler (event : EventType) (c : Ptr) (w : World St) :
  EmitAsync event (Some c) w = (λ handler, (handler, c)) <$> (handlers (fst w) !!! event) ∧
  length (EmitAsync event (Some c) w) = length (handlers (fst w) !!! event).
Proof.
  unfold EmitAsync. rewrite asyncLoop_some. split; [done|]. by rewrite length_map.
Qed.

End Emission.

Lemma Off_and_Clear_witness :
  handlers (Off EventWSConnect (On EventWSMessage (Handler 1)
              (On EventWSConnect (Handler 0) NewEventPipeline))) !!! EventWSMessage
  = [Handler 1].
Proof.
  rewrite (proj1 (proj2 (proj2 (Off_and_Clear (quietCode (St := unit) (Ptr := unit)) EventWSConnect
             (On EventWSMessage (Handler 1) (On EventWSConnect (Handler 0) NewEventPipeline))
             None tt))) EventWSMessage ltac:(discriminate)).
  reflexivity.
Defined.

Section Package.
Context {St Data : Type}.
Variable code : nat → Data → EventsPkg.Pipeline * St → EventsPkg.Pipeline * St.

Lemma pkg_emitLoop_calls hs data w :
  snd (EventsPkg.emitLoop code hs data w) = hs.
Proof.
  revert w. induction hs as [|handler rest IH]; intros w; simpl; [done|].
  specialize (IH (code handler data w)).
  destruct (EventsPkg.emitLoop code rest data (code handler data w)). simpl in *.
  by rewrite IH.
Qed.

(** X14. [Emit] of the package [events] has no test of its argument: for
    every data, also nil, it calls every handler registered for the kind
    when it begins, each once and in registration order; a handler that
    [On] has just registered is the last one called. *)
Theorem pkg_Emit_calls_all (event : string) (data : Data) (p : EventsPkg.Pipeline)
    (st : St) (handler : nat) :
  snd (EventsPkg.Emit code event data (p, st)) = EventsPkg.handlers p !!! event ∧
  snd (EventsPkg.Emit code event data (EventsPkg.On event handler p, st))
  = EventsPkg.handlers p !!! event ++ [handler] ∧
  snd (EventsPkg.Emit code event data (EventsPkg.Off event p, st)) = [].
Proof.
  unfold EventsPkg.Emit. rewrite !pkg_emitLoop_calls. simpl.
  by rewrite lookup_total_insert_eq, lookup_total_delete_eq.
Qed.

End Package.

End EventsMore.

(** ** Registration: routes, methods, groups *)

Module RouterMoreTheory.
Import Ctx CtxMore Events Router RouterMore RouterSpec ServingSpec.
Import Matcher RouterTheory.

Section Registration.
Context {G : Type}.
Implicit Types (route : Route G) (rs : list (Route G)) (r : Router G) (m : MState G).

Lemma findRouteIn_app rs rs' method path :
  findRouteIn (rs ++ rs') method path
  = match findRouteIn rs method path with
    | Some found => Some found
    | None => findRouteIn rs' method path
    end.
Proof.
  induction rs as [|first rs IH]; [done|].
  rewrite <- app_comm_cons, !findRouteIn_cons, IH.
  case_bool_decide; [|done]. by destruct (matchPath (Path first) path).
Qed.

Lemma findRoute_addRoute (method routePath : string) (handler : HandlerFunc G)
    (mws : list (MiddlewareFunc G)) r (reqMethod reqPath : string) :
  findRoute (addRoute method routePath handler mws r) reqMethod reqPath
  = match findRoute r reqMethod reqPath with
    | Some found => Some found
    | None =>
        if decide (method = reqMethod)
        then (λ params, (newRoute method routePath handler mws, params))
               <$> matchPath routePath reqPath
        else None
    end.
Proof.
  unfold findRoute, addRoute. simpl. rewrite findRouteIn_app.
  destruct (findRouteIn (routes r) reqMethod reqPath); [done|].
  rewrite findRouteIn_cons. simpl. case_decide.
  - rewrite bool_decide_eq_true_2 by done.
    by destruct (matchPath routePath reqPath).
  - by rewrite bool_decide_eq_false_2.
Qed.

(** X15. A registration never changes the resolution of a request that
    already resolved: after [addRoute], a request resolves to the route it
    resolved to before, and a request that resolved to nothing resolves to
    the new route exactly when the new route has its method and the new
    pattern matches its path. *)
Theorem addRoute_keeps_resolutions (method routePath : string) (handler : HandlerFunc G)
    (mws : list (MiddlewareFunc G)) r (reqMethod reqPath : string) :
  findRoute (addRoute method routePath handler mws r) reqMethod reqPath
  = match findRoute r reqMethod reqPath with
    | Some found => Some found
    | None =>
        if decide (method = reqMethod)
        then (λ params, (newRoute method routePath handler mws, params))
               <$> matchPath routePath reqPath
        else None
    end.
Proof. apply findRoute_addRoute. Qed.

Lemma Any_routes (methods : list string) (path : string) (handler : HandlerFunc G)
    (mws : list (MiddlewareFunc G)) r :
  routes (Any methods path handler mws r)
  = routes r ++ ((λ method, newRoute method path handler mws) <$> methods) ∧
  middlewares (Any methods path handler mws r) = middlewares r ∧
  notFound (Any methods path handler mws r) = notFound r ∧
  methodNotAllowed (Any methods path handler mws r) = methodNotAllowed r.
Proof.
  unfold Any. revert r. induction methods as [|method methods IH]; intros r; simpl.
  - by rewrite app_nil_r.
  - destruct (IH (addRoute method path handler mws r)) as (-> & -> & -> & ->).
    simpl. by rewrite <- app_assoc.
Qed.

Lemma findRouteIn_same_path (methods : list string) (path : string)
    (handler : HandlerFunc G) (mws : list (MiddlewareFunc G)) (reqMethod reqPath : string) :
  findRouteIn ((λ method, newRoute method path handler mws) <$> methods) reqMethod reqPath
  = if decide (reqMethod ∈ methods)
    then (λ params, (newRoute reqMethod path handler mws, params)) <$> matchPath path reqPath
    else None.
Proof.
  induction methods as [|method methods IH].
  - rewrite decide_False by apply not_elem_of_nil. done.
  - rewrite fmap_cons, findRouteIn_cons.
    change (Path (newRoute method path handler mws)) with path.
    change (Method (newRoute method path handler mws)) with method.
    case_bool_decide as Hm.
    + subst method. rewrite decide_True by by left.
      destruct (matchPath path reqPath) as [params|] eqn:Hp; [done|].
      rewrite IH. by case_decide.
    + rewrite IH. case_decide as Hin.
      * rewrite decide_True; [done|]. by right.
      * rewrite decide_False; [done|]. intros [->|?]%elem_of_cons; done.
Qed.

(** X16. [Any] registers the route once per method of the list, after the
    routes already there: a request that resolved before resolves to the
    same route; one that did not resolves to the new handler exactly when
    its method is in the list and the pattern matches its path; the
    global middlewares and the 404 and 405 handlers stay. *)
Theorem Any_registers_every_method (AllHTTPMethods : list string) (path : string)
    (handler : HandlerFunc G) (mws : list (MiddlewareFunc G)) r
    (reqMethod reqPath : string) :
  let r' := Any AllHTTPMethods path handler mws r in
  findRoute r' reqMethod reqPath
  = match findRoute r reqMethod reqPath with
    | Some found => Some found
    | None =>
        if decide (reqMethod ∈ AllHTTPMethods)
        then (λ params, (newRoute reqMethod path handler mws, params))
               <$> matchPath path reqPath
        else None
    end ∧
  middlewares r' = middlewares r ∧ notFound r' = notFound r ∧
  methodNotAllowed r' = methodNotAllowed r.
Proof.
  intros r'. destruct (Any_routes AllHTTPMethods path handler mws r) as (Hr & ? & ? & ?).
  split; [|done]. unfold findRoute, r'. rewrite Hr, findRouteIn_app.
  destruct (findRouteIn (routes r) reqMethod reqPath); [done|].
  apply findRouteIn_same_path.
Qed.

(** X17. A route added through a group nested in a group has the two
    prefixes before its path, and its chain is the handler wrapped by the
    route's own middlewares, then by those of the inner group, then by
    those of the outer group, then by the global ones; a request for
    exactly that full path resolves to it when no earlier route took it.
    Middlewares given to a group by [Use] come after the group's earlier
    ones. *)
Theorem group_route_nesting (outer inner routePath method : string)
    (outerMws innerMws usedMws mws : list (MiddlewareFunc G))
    (handler : HandlerFunc G) r :
  let g := Group_Use usedMws (Group_Group inner innerMws (Group outer outerMws)) in
  let r' := Group_addRoute g method routePath handler mws r in
  let fullPath := ((outer ++ inner) ++ routePath)%string in
  let route := newRoute method fullPath handler (((outerMws ++ innerMws) ++ usedMws) ++ mws) in
  routes r' = routes r ++ [route] ∧
  buildMiddlewareChain r' route
  = foldr (λ mw next, mw next)
      (foldr (λ mw next, mw next)
         (foldr (λ mw next, mw next)
            (foldr (λ mw next, mw next)
               (foldr (λ mw next, mw next) handler mws)
               usedMws)
            innerMws)
         outerMws)
      (middlewares r) ∧
  (findRoute r method fullPath = None →
   findRoute r' method fullPath = Some (route, ∅)).
Proof.
  intros g r' fullPath route. split; [done|]. split.
  - rewrite buildMiddlewareChain_foldr. simpl. by rewrite !foldr_app.
  - intros Hnone. unfold r', Group_addRoute. rewrite findRoute_addRoute, Hnone.
    rewrite decide_True by done. simpl.
    by rewrite MatcherTheory.matchPath_fast.
Qed.

End Registration.

Lemma group_route_nesting_witness :
  let r' := Group_addRoute (Group_Use [] (Group_Group "/v1" [] (Group "/api" [])))
              MethodGet "/users" okHandler [] NewRouter in
  findRoute r' MethodGet "/api/v1/users"
  = Some (newRoute MethodGet "/api/v1/users" okHandler [], ∅).
Proof.
  exact (proj2 (proj2 (group_route_nesting "/api" "/v1" "/users" MethodGet
                         [] [] [] [] okHandler NewRouter)) eq_refl).
Defined.

End RouterMoreTheory.

(** ** The store of the context and failed handlers *)

Module DispatchMore.
Import Ctx CtxMore Events Router RouterMore RouterSpec ServingSpec.
Import Matcher RouterTheory.

Lemma Get_Set_same (key : string) (value : any) (c : Context) :
  Get key (Set_ key value c) = Some value.
Proof. unfold Get, Set_, set_keys. simpl. apply lookup_insert_eq. Qed.

Lemma store_made_Writer (c : Context) : store_made c → is_Some (Writer c).
Proof. induction 1; by eauto. Qed.

(** The zero context is none of the contexts whose store has been made. *)
Lemma zeroContext_store_not_made : ¬ store_made zeroContext.
Proof. intros H%store_made_Writer. by destruct H. Qed.

(** The context a request is served with has its store made. *)
Lemma acquire_store_made {G : Type} (r : Router G) (w : ResponseWriter)
    (req : HttpRequest) (free : list Context) :
  store_made (fst (acquire r w req free)).
Proof.
  unfold acquire. destruct (poolGet free) as [c free']. cbn [fst].
  apply made_pipeline, made_reset.
Qed.





Section Serving.
Context {G : Type}.
Implicit Types (r : Router G) (m : MState G).
Variable code : Code (Context * G) CtxPtr.

Lemma emitEvent_no_handlers r (event : EventType) m :
  handlers (fst m) !!! event = [] → emitEvent code r event m = m.
Proof.
  intros Hnone. unfold emitEvent, Emit. rewrite Hnone. simpl.
  by destruct (pipeline_set r).
Qed.

(** X20. When no handler is registered for [on_error], [handleError]
    stores the error under the key error and answers at most once: a
    context that is already written gets no further call on its writer,
    and one that is not written gets the default error response with
    status 500 and the message of the error, and is written afterwards. *)
Theorem handleError_answers_once r (err : error) m :
  handlers (fst m) !!! EventError = [] →
  let m' := handleError code r err m in
  Get "error" (fst (snd m')) = Some (AError err) ∧
  fst m' = fst m ∧ snd (snd m') = snd (snd m) ∧
  (Written (fst (snd m)) = true → Writer (fst (snd m')) = Writer (fst (snd m))) ∧
  (Written (fst (snd m)) = false →
   ∀ w, Writer (fst (snd m)) = Some w →
     Writer (fst (snd m'))
     = Some (mkResponseWriter
               (received w ++ errorCalls StatusInternalServerError err) (writeErr w)) ∧
     Written (fst (snd m')) = true).
Proof.
  intros Hnone m'. subst m'. destruct m as [p [c g]]. cbn [fst snd] in *.
  unfold handleError. rewrite emitEvent_no_handlers by done.
  unfold onContext. cbn [fst snd].
  change (Written (Set_ "error" (AError err) c)) with (written c).
  unfold Written.
  pose proof (Get_Set_same "error" (AError err) c) as Hget.
  destruct (written c) eqn:Hw; cbn [negb].
  - by repeat split.
  - destruct (InternalServerError err (Set_ "error" (AError err) c)) as [c' e] eqn:Hresp.
    cbn [fst snd]. unfold InternalServerError in Hresp.
    destruct (Writer c) as [w|] eqn:HW.
    + rewrite (Error_response StatusInternalServerError err _ w) in Hresp by done.
      injection Hresp as <- <-.
      split; [exact Hget|]. split; [done|]. split; [done|]. split; [done|].
      intros _ w' [= <-]. by unfold errorCalls.
    + unfold Error, JSON, SetHeader, tell in Hresp. simpl in Hresp.
      rewrite HW in Hresp. simpl in Hresp. rewrite HW in Hresp.
      injection Hresp as <- <-. rewrite ?HW.
      split; [exact Hget|]. by repeat split.
Qed.

End Serving.

Lemma handleError_answers_once_witness :
  let m : MState unit :=
    (NewEventPipeline, (NewContext (mkResponseWriter [] None) (mkHttpRequest "GET" "/"), tt)) in
  Writer (fst (snd (handleError EventsSpec.quietCode NewRouter "boom" m)))
  = Some (mkResponseWriter (errorCalls StatusInternalServerError "boom") None).
Proof.
  intros m.
  apply (proj2 (proj2 (proj2 (proj2
    (handleError_answers_once EventsSpec.quietCode NewRouter "boom" m eq_refl)))) eq_refl
    (mkResponseWriter [] None) eq_refl).
Defined.

End DispatchMore.

(** ** The middlewares *)

Module MiddlewareTheory.
Import Ctx CtxMore Events Router RouterSpec ServingSpec Middleware MiddlewareSpec.
Import RouterTheory.

Section Combinators.
Context {G : Type}.
Implicit Types (r : Router G) (m : MState G) (next : HandlerFunc G).

Lemma Chain_foldr (mws : list (MiddlewareFunc G)) next :
  Chain mws next = foldr (λ mw next, mw next) next mws.
Proof. unfold Chain. apply wrapDown_all. Qed.

(** X22. [Chain] wraps like the router does: the first middleware is the
    outermost; the chain of two lists one after the other is the chain of
    the first around the chain of the second; and a route whose only
    middleware is a chain is dispatched like the route with the chained
    middlewares themselves. *)
Theorem Chain_is_nesting (mws mws' : list (MiddlewareFunc G)) next r
    (method path : string) (handler : HandlerFunc G) :
  Chain mws next = foldr (λ mw next, mw next) next mws ∧
  Chain [] next = next ∧
  Chain (mws ++ mws') next = Chain mws (Chain mws' next) ∧
  buildMiddlewareChain r (newRoute method path handler [Chain mws])
  = buildMiddlewareChain r (newRoute method path handler mws).
Proof.
  rewrite !buildMiddlewareChain_foldr, !Chain_foldr. simpl.
  rewrite foldr_app, Chain_foldr. done.
Qed.

Variable Header : Context → string → string.
Variable Itoa : Z → string.

Lemma originAllowed_iff (origins : list string) (origin : string) :
  originAllowed origins origin = true ↔ "*" ∈ origins ∨ origin ∈ origins.
Proof.
  induction origins as [|o origins IH]; simpl.
  - split; [done|]. intros [H|H]; by apply elem_of_nil in H.
  - destruct (bool_decide (o = "*")) eqn:Hstar; simpl.
    + apply bool_decide_eq_true_1 in Hstar as ->. split; [|done]. intros _. left. by left.
    + apply bool_decide_eq_false_1 in Hstar.
      destruct (bool_decide (o = origin)) eqn:Ho; simpl.
      * apply bool_decide_eq_true_1 in Ho as ->. split; [|done]. intros _. right. by left.
      * apply bool_decide_eq_false_1 in Ho. rewrite IH, !elem_of_cons. naive_solver.
Qed.

(** X23. The CORS middleware lets a request through untouched when its
    origin is not allowed, that is, when neither the star nor the origin
    of the request is in [AllowOrigins]: it sets no header and the next
    handler runs on the very state the middleware received. *)
Theorem CORS_ignores_other_origins (config : CORSConfig) next m :
  "*" ∉ AllowOrigins config →
  Header (fst (snd m)) "Origin" ∉ AllowOrigins config →
  CORSWithConfig Header Itoa (Some config) next m = next m.
Proof.
  intros Hstar Horigin. unfold CORSWithConfig. simpl.
  destruct (originAllowed _ _) eqn:Hallowed; [|done].
  apply originAllowed_iff in Hallowed. tauto.
Qed.

Lemma appended_nil (c : Context) (w : ResponseWriter) :
  Writer c = Some w → appended c w [] = c.
Proof.
  destruct c, w. simpl. intros ->. unfold appended, set_Writer. simpl.
  by rewrite app_nil_r.
Qed.

Lemma doCtx_appended key value (p : EventPipeline) (c : Context) (g : G) w calls :
  doCtx (SetHeader key value) (p, (appended c w calls, g))
  = (p, (appended c w (calls ++ [HeaderSet key value]), g)).
Proof.
  unfold doCtx, onContext, SetHeader, tell, appended, set_Writer. simpl.
  by rewrite <- app_assoc.
Qed.

Lemma NoContent_appended (p : EventPipeline) (c : Context) (g : G) w calls :
  onContext NoContent (p, (appended c w calls, g))
  = ((p, (set_written true (appended c w (calls ++ [WriteHeader StatusNoContent])), g)),
     None).
Proof.
  unfold onContext, NoContent, tell, appended, set_Writer, set_written. simpl.
  by rewrite <- app_assoc.
Qed.

Lemma Method_appended (c : Context) w calls : Method_ (appended c w calls) = Method_ c.
Proof. done. Qed.

Lemma CORS_allowed_run (config : CORSConfig) next (p : EventPipeline) (c : Context)
    (g : G) (w : ResponseWriter) :
  originAllowed (AllowOrigins config) (Header c "Origin") = true →
  Writer c = Some w →
  CORSWithConfig Header Itoa (Some config) next (p, (c, g))
  = let calls := corsHeaderCalls config (Header c "Origin") in
    if bool_decide (Method_ c = MethodOptions)
    then ((p, (set_written true (appended c w (calls ++ preflightCalls Itoa config)), g)),
          None)
    else next (p, (appended c w calls, g)).
Proof.
  intros Hallowed Hw.
  unfold CORSWithConfig. cbv zeta. cbn [default from_option id fst snd].
  rewrite Hallowed. set (m0 := (p, (c, g))).
  assert (m0 = (p, (appended c w [], g))) as Hm0
    by (unfold m0; by rewrite appended_nil).
  clearbody m0. subst m0. unfold corsHeaderCalls, preflightCalls.
  destruct (bool_decide (AllowOrigins config = ["*"]));
    destruct (AllowCredentials config);
    destruct (bool_decide (0 < length (ExposeHeaders config)));
    rewrite ?doCtx_appended; cbn [fst snd]; rewrite Method_appended;
    destruct (bool_decide (Method_ c = MethodOptions));
    rewrite ?doCtx_appended, ?NoContent_appended; simpl; rewrite ?app_nil_r; done.
Qed.

(** X24. A preflight request from an allowed origin never reaches the
    next handler: for a request with method OPTIONS the CORS middleware
    answers itself, whatever the next handler is; it returns no error,
    marks the context written, and sends the CORS headers, the three
    preflight headers and the status 204. *)
Theorem CORS_answers_preflight (config : CORSConfig) next m (w : ResponseWriter) :
  originAllowed (AllowOrigins config) (Header (fst (snd m)) "Origin") = true →
  Method_ (fst (snd m)) = MethodOptions →
  Writer (fst (snd m)) = Some w →
  (∀ next', CORSWithConfig Header Itoa (Some config) next m
            = CORSWithConfig Header Itoa (Some config) next' m) ∧
  CORSWithConfig Header Itoa (Some config) next m
  = ((fst m,
      (set_written true
         (appended (fst (snd m)) w
            (corsHeaderCalls config (Header (fst (snd m)) "Origin")
             ++ preflightCalls Itoa config)),
       snd (snd m))),
     None).
Proof.
  intros Hallowed Hmethod Hw. destruct m as [p [c g]]. cbn [fst snd] in *.
  split; [intros next'|]; rewrite !(CORS_allowed_run config _ p c g w) by done;
    cbv zeta; by rewrite bool_decide_eq_true_2.
Qed.

(** X25. For a request of an allowed origin that is no preflight, the
    CORS middleware sets its headers and then runs the next handler:
    [Access-Control-Allow-Origin] is the star when the star is the only
    allowed origin, and otherwise the origin of the request with
    [Vary: Origin] (so with the star among several allowed origins every
    origin is sent back); then the credentials header and the exposed
    headers when configured. *)
Theorem CORS_sets_headers_then_next (config : CORSConfig) next m (w : ResponseWriter) :
  "*" ∈ AllowOrigins config ∨ Header (fst (snd m)) "Origin" ∈ AllowOrigins config →
  Method_ (fst (snd m)) ≠ MethodOptions →
  Writer (fst (snd m)) = Some w →
  CORSWithConfig Header Itoa (Some config) next m
  = next (fst m,
          (appended (fst (snd m)) w
             (corsHeaderCalls config (Header (fst (snd m)) "Origin")),
           snd (snd m))).
Proof.
  intros Hallowed%originAllowed_iff Hmethod Hw. destruct m as [p [c g]].
  cbn [fst snd] in *. rewrite (CORS_allowed_run config _ p c g w) by done.
  cbv zeta. by rewrite bool_decide_eq_false_2.
Qed.

(** X26. The bearer middleware runs the next handler only for a request
    that the skip function exempts, or whose [Authorization] header
    begins with Bearer and a blank and whose token, the header without
    these seven bytes, the validator accepts; then the token is in the
    store under the key token. Every other request gets the 401 answer
    with the configured message, whatever the next handler is. *)
Theorem BearerAuth_guards_next (config : BearerAuthConfig) next m :
  let c := fst (snd m) in
  let auth := Header c "Authorization" in
  let token := GoStrings.skip 7 auth in
  let skipped := match SkipFunc config with Some skip => skip c | None => false end in
  (skipped = true ∧ BearerAuthWithConfig Header config next m = next m) ∨
  (skipped = false ∧ GoStrings.HasPrefix auth "Bearer " = true ∧
   Validator config token c = true ∧
   Get "token" (fst (snd (doCtx (Set_ "token" (AString token)) m)))
   = Some (AString token) ∧
   BearerAuthWithConfig Header config next m
   = next (doCtx (Set_ "token" (AString token)) m)) ∨
  (skipped = false ∧
   (GoStrings.HasPrefix auth "Bearer " = false ∨ Validator config token c = false) ∧
   ∀ next', BearerAuthWithConfig Header config next' m
            = onContext (JSON StatusUnauthorized
                           (AH [("error", AString (ErrorMessage config))])) m).
Proof.
  intros c auth token skipped. unfold BearerAuthWithConfig. fold c auth token skipped.
  destruct skipped eqn:Hskip; [by left|right].
  destruct (bool_decide (auth = EmptyString)) eqn:Hempty.
  { right. apply bool_decide_eq_true_1 in Hempty. split; [done|]. split; [|done].
    left. by rewrite Hempty. }
  destruct (GoStrings.HasPrefix auth "Bearer ") eqn:Hprefix; simpl.
  - destruct (Validator config token c) eqn:Hvalid; simpl.
    + left. repeat split; try done. destruct m as [p [c0 g]].
      unfold doCtx, onContext, Get, Set_, set_keys. simpl. apply lookup_insert_eq.
    + right. split; [done|]. split; [by right|done].
  - right. split; [done|]. split; [by left|done].
Qed.

End Combinators.

(** A request from one origin, for the witnesses. *)
Definition headerOf (origin : string) : Context → string → string :=
  λ _ key, if bool_decide (key = "Origin") then origin else EmptyString.
Definition fixedItoa : Z → string := λ _, "600".
Definition oneOrigin (origin : string) : CORSConfig :=
  mkCORSConfig [origin] ["GET"] ["Accept"] [] true 600.
Definition stateOf (method : string) : MState unit :=
  (NewEventPipeline, (NewContext (mkResponseWriter [] None) (mkHttpRequest method "/"), tt)).

Lemma CORS_ignores_other_origins_witness :
  CORSWithConfig (headerOf "https://b.example") fixedItoa (Some (oneOrigin "https://a.example"))
    okHandler (stateOf "GET")
  = okHandler (stateOf "GET").
Proof.
  apply CORS_ignores_other_origins.
  - intros H%list_elem_of_singleton. discriminate.
  - intros H%list_elem_of_singleton. discriminate.
Defined.

Lemma CORS_answers_preflight_witness :
  CORSWithConfig (headerOf "https://a.example") fixedItoa (Some (oneOrigin "https://a.example"))
    okHandler (stateOf "OPTIONS")
  = ((NewEventPipeline,
      (set_written true
         (appended (fst (snd (stateOf "OPTIONS"))) (mkResponseWriter [] None)
            (corsHeaderCalls (oneOrigin "https://a.example") "https://a.example"
             ++ preflightCalls fixedItoa (oneOrigin "https://a.example"))), tt)),
     None).
Proof.
  exact (proj2 (CORS_answers_preflight (headerOf "https://a.example") fixedItoa
                  (oneOrigin "https://a.example") okHandler (stateOf "OPTIONS")
                  (mkResponseWriter [] None) eq_refl eq_refl eq_refl)).
Defined.

Lemma CORS_sets_headers_then_next_witness :
  CORSWithConfig (headerOf "https://a.example") fixedItoa (Some (oneOrigin "https://a.example"))
    okHandler (stateOf "GET")
  = okHandler (NewEventPipeline,
               (appended (fst (snd (stateOf "GET"))) (mkResponseWriter [] None)
                  [HeaderSet (Text "Access-Control-Allow-Origin") (Text "https://a.example");
                   HeaderSet (Text "Vary") (Text "Origin");
                   HeaderSet (Text "Access-Control-Allow-Credentials") (Text "true")],
                tt)).
Proof.
  apply (CORS_sets_headers_then_next (headerOf "https://a.example") fixedItoa
           (oneOrigin "https://a.example") okHandler (stateOf "GET")
           (mkResponseWriter [] None)).
  - right. by apply list_elem_of_singleton.
  - discriminate.
  - reflexivity.
Defined.

Example BearerAuth_rejects_missing_header :
  BearerAuth (G := unit) (λ _ _, EmptyString) (λ _ _, true) okHandler (stateOf "GET")
  = onContext (JSON StatusUnauthorized (AH [("error", AString "Invalid or missing token")]))
      (stateOf "GET").
Proof. reflexivity. Qed.

Example BearerAuth_stores_token :
  let next : HandlerFunc unit := λ m, (m, None) in
  Get "token"
    (fst (snd (fst (BearerAuth (λ _ _, "Bearer abc") (λ token _, bool_decide (token = "abc"))
                      next (stateOf "GET")))))
  = Some (AString "abc").
Proof. vm_compute. reflexivity. Qed.

End MiddlewareTheory.
